(** * Depth-frame image pipeline: a shallow embedding of
      [app/processing/image.py] and the properties of its colour lookup
      table, clamping, resampling and row pipeline.

The Python module leans on NumPy (float64 arithmetic, [linspace],
[clip], [astype], slice assignment, fancy indexing) and on Pillow
([Image.resize], PNG serialisation).  NumPy's float64 values are
modelled bit-exactly with the IEEE-754 specification floats of the
standard library; Pillow's 8-bit horizontal resampling pass is written
out with the filter weights left as a parameter; Pillow's PNG writer is
a parameter. *)

From Stdlib Require Import String DecimalString Strings.Byte.
From Stdlib Require Import ZArith List Bool Lia.
From Stdlib Require Import Floats.SpecFloat.
Import ListNotations.
Open Scope Z_scope.

(** ** Python values and effects *)

Module Py.

(** Exceptions the module can raise, with their messages. *)
Inductive exn : Type :=
| ValueError (msg : string)
| IndexError (msg : string)
| OverflowError (msg : string)
| MemoryError.

Inductive result (A : Type) : Type :=
| Ok (a : A)
| Raise (e : exn).
Arguments Ok {A} a.
Arguments Raise {A} e.

Definition bind {A B} (r : result A) (k : A -> result B) : result B :=
  match r with
  | Ok a => k a
  | Raise e => Raise e
  end.

(** [str(n)] for a Python int. *)
Definition str (n : Z) : string := NilZero.string_of_int (Z.to_int n).

(** [len(xs)] as a Python int. *)
Definition len {A} (xs : list A) : Z := Z.of_nat (length xs).

(** The only process state the module touches: the records handed to
    [logger.debug], oldest first. *)
Definition world : Type := list string.

(** A computation that may log and may raise. *)
Definition M (A : Type) : Type := world -> result A * world.

Definition ret {A} (a : A) : M A := fun w => (Ok a, w).
Definition raise {A} (e : exn) : M A := fun w => (Raise e, w).
Definition lift {A} (r : result A) : M A := fun w => (r, w).
Definition debug (msg : string) : M unit := fun w => (Ok tt, w ++ [msg]).
Definition mbind {A B} (m : M A) (k : A -> M B) : M B :=
  fun w => match m w with
           | (Ok a, w') => k a w'
           | (Raise e, w') => (Raise e, w')
           end.

End Py.

Import Py.

Declare Scope py_scope.
Delimit Scope py_scope with py.
Notation "x <- r ;; k" := (Py.bind r (fun x => k))
  (at level 61, r at next level, right associativity) : py_scope.
Notation "x <~ m ;; k" := (Py.mbind m (fun x => k))
  (at level 61, m at next level, right associativity) : py_scope.
Open Scope py_scope.

(** ** IEEE-754 binary64 *)

Module Float64.

Definition t : Type := spec_float.

Definition prec : Z := 53.
Definition emax : Z := 1024.

(** Conversion of a Python int (round to nearest even; exact below 2^53). *)
Definition of_Z (z : Z) : t := binary_normalize prec emax z 0 false.

Definition add : t -> t -> t := SFadd prec emax.
Definition sub : t -> t -> t := SFsub prec emax.
Definition mul : t -> t -> t := SFmul prec emax.
Definition div : t -> t -> t := SFdiv prec emax.

Definition is_nan (x : t) : bool :=
  match x with S754_nan => true | _ => false end.

Definition is_zero (x : t) : bool :=
  match x with S754_zero _ => true | _ => false end.

(** A finite value is [Fnum x * 2 ^ Fexp x]. *)
Definition Fnum (x : t) : Z :=
  match x with
  | S754_finite false m _ => Zpos m
  | S754_finite true m _ => Zneg m
  | _ => 0
  end.

Definition Fexp (x : t) : Z :=
  match x with
  | S754_finite _ _ e => e
  | _ => 0
  end.

(** Exact comparison, [None] when unordered.  It compares the two real
    values whatever the representation of the mantissas. *)
Definition compare (x y : t) : option comparison :=
  match x, y with
  | S754_nan, _ | _, S754_nan => None
  | S754_infinity s1, S754_infinity s2 =>
      Some (match s1, s2 with
            | true, false => Lt
            | false, true => Gt
            | _, _ => Eq
            end)
  | S754_infinity true, _ => Some Lt
  | S754_infinity false, _ => Some Gt
  | _, S754_infinity true => Some Gt
  | _, S754_infinity false => Some Lt
  | _, _ =>
      let e := Z.min (Fexp x) (Fexp y) in
      Some (Z.compare (Fnum x * 2 ^ (Fexp x - e)) (Fnum y * 2 ^ (Fexp y - e)))
  end.

Definition ltb (x y : t) : bool :=
  match compare x y with Some Lt => true | _ => false end.
Definition gtb (x y : t) : bool :=
  match compare x y with Some Gt => true | _ => false end.

(** Largest integer not above a finite value. *)
Definition floor_Z (x : t) : option Z :=
  match x with
  | S754_zero _ => Some 0
  | S754_finite _ _ e =>
      Some (if 0 <=? e then Fnum x * 2 ^ e else Fnum x / 2 ^ (- e))
  | _ => None
  end.

(** The integer part of a finite value (rounding toward zero), which is
    what a C conversion to an integer type computes. *)
Definition trunc_Z (x : t) : option Z :=
  match x with
  | S754_zero _ => Some 0
  | S754_finite _ _ e =>
      Some (if 0 <=? e then Fnum x * 2 ^ e else Z.quot (Fnum x) (2 ^ (- e)))
  | _ => None
  end.

(** Smallest integer not below a finite value. *)
Definition ceil_Z (x : t) : option Z :=
  match x with
  | S754_zero _ => Some 0
  | S754_finite _ _ e =>
      Some (if 0 <=? e then Fnum x * 2 ^ e else - (- Fnum x / 2 ^ (- e)))
  | _ => None
  end.

End Float64.

Definition float64 : Type := Float64.t.

(** ** The NumPy operations the module calls *)

Module Numpy.

(** A [uint8] array: its shape and its elements in C order. *)
Record ndarray : Type := mk_ndarray { shape : list nat; data : list Z }.

(** [arange(0, num)] as Python ints. *)
Definition arange (num : Z) : list Z := map Z.of_nat (seq 0 (Z.to_nat num)).

(** [np.floor] on one float64. *)
Definition floor (x : float64) : float64 :=
  match x with
  | S754_finite _ _ _ =>
      match Float64.floor_Z x with
      | Some z => Float64.of_Z z
      | None => x
      end
  | _ => x
  end.

(** [np.maximum]/[np.minimum] as [np.clip] uses them on floats: a NaN in
    the first operand is propagated. *)
Definition clip_max (a b : float64) : float64 :=
  if Float64.is_nan a then a else if Float64.gtb a b then a else b.
Definition clip_min (a b : float64) : float64 :=
  if Float64.is_nan a then a else if Float64.ltb a b then a else b.

(** [np.clip(x, lo, hi)] on one float64, the bounds given as Python ints. *)
Definition clip (x : float64) (lo hi : Z) : float64 :=
  clip_min (clip_max x (Float64.of_Z lo)) (Float64.of_Z hi).

Section Cast.

(** [astype(np.uint8)] is a C conversion from [double] to
    [unsigned char]: the integer part when that fits the destination,
    and left undefined by C otherwise (NaN, infinities, values whose
    integer part is outside 0..255).  [cast_undefined] is what the
    platform produces in the undefined case; the destination being a
    byte, only its low eight bits are kept. *)
Variable cast_undefined : float64 -> Z.

Definition astype_uint8 (x : float64) : Z :=
  match Float64.trunc_Z x with
  | Some z => if (0 <=? z) && (z <=? 255) then z
              else cast_undefined x mod 256
  | None => cast_undefined x mod 256
  end.

(** [np.linspace(start, stop, num)] with float64 arithmetic, as NumPy
    computes it: [arange(0, num) * step + start] with
    [step = (stop - start) / (num - 1)], the last sample overwritten by
    [stop]. *)
Definition linspace (start stop num : Z) : result (list float64) :=
  if num <? 0 then
    Raise (ValueError ("Number of samples, " ++ str num
                         ++ ", must be non-negative."))
  else
    let div := num - 1 in
    let startf := Float64.of_Z start in
    let stopf := Float64.of_Z stop in
    let delta := Float64.sub stopf startf in
    let y := map Float64.of_Z (arange num) in
    let y :=
      if 0 <? div then
        let step := Float64.div delta (Float64.of_Z div) in
        if Float64.is_zero step then
          map (fun v => Float64.mul (Float64.div v (Float64.of_Z div)) delta) y
        else
          map (fun v => Float64.mul v step) y
      else map (fun v => Float64.mul v delta) y in
    let y := map (fun v => Float64.add v startf) y in
    let y := if 1 <? num then removelast y ++ [stopf] else y in
    Ok y.

(** [np.linspace(start, stop, num, dtype=np.uint8)]: the samples are
    floored, then converted. *)
Definition linspace_uint8 (start stop num : Z) : result (list Z) :=
  y <- linspace start stop num ;;
  Ok (map (fun v => astype_uint8 (floor v)) y).
End Cast.

(** Start and stop of the slice [a[start:stop]] on an axis of length
    [n], as Python normalises them. *)
Definition slice_bound (n i : Z) : Z :=
  if i <? 0 then Z.max (i + n) 0 else Z.min i n.

Definition slice_indices (n start stop : Z) : Z * Z :=
  let a := slice_bound n start in
  let b := slice_bound n stop in
  (a, Z.max 0 (b - a)).

(** A row of an [(n, 3)] [uint8] array. *)
Definition rgb : Type := (Z * Z * Z)%type.

Definition channel (c : nat) (px : rgb) : Z :=
  let '(r, g, b) := px in
  match c with
  | O => r
  | S O => g
  | _ => b
  end.

Definition set_channel (c : nat) (v : Z) (px : rgb) : rgb :=
  let '(r, g, b) := px in
  match c with
  | O => (v, g, b)
  | S O => (r, v, b)
  | _ => (r, g, v)
  end.

(** [np.zeros((n, 3), dtype=np.uint8)]. *)
Definition zeros (n : nat) : list rgb := repeat (0, 0, 0) n.

Fixpoint update {A} (i : nat) (f : A -> A) (xs : list A) : list A :=
  match xs, i with
  | [], _ => []
  | x :: xs', O => f x :: xs'
  | x :: xs', S i' => x :: update i' f xs'
  end.

(** Store [vals] in column [c] of the rows [a], [a+1], ... *)
Fixpoint store_column (a : nat) (c : nat) (vals : list Z) (arr : list rgb)
  : list rgb :=
  match vals with
  | [] => arr
  | v :: vals' => store_column (S a) c vals' (update a (set_channel c v) arr)
  end.

(** [arr[start:stop, c] = vals]: the value must have the slice's length,
    or length one (then it is broadcast); anything else is NumPy's
    broadcasting error. *)
Definition assign_column (arr : list rgb) (start stop : Z) (c : nat)
    (vals : list Z) : result (list rgb) :=
  let '(a, n) := slice_indices (len arr) start stop in
  if len vals =? n then Ok (store_column (Z.to_nat a) c vals arr)
  else
    match vals with
    | [v] => Ok (store_column (Z.to_nat a) c (repeat v (Z.to_nat n)) arr)
    | _ =>
        Raise (ValueError ("could not broadcast input array from shape ("
                             ++ str (len vals) ++ ",) into shape ("
                             ++ str n ++ ",)"))
    end.

(** [table[i]] for one integer index: negative indices count from the
    end, anything outside is an [IndexError]. *)
Definition index_row (table : list rgb) (i : Z) : result rgb :=
  let n := len table in
  let j := if i <? 0 then i + n else i in
  if (0 <=? j) && (j <? n) then Ok (nth (Z.to_nat j) table (0, 0, 0))
  else Raise (IndexError ("index " ++ str i ++ " is out of bounds for axis 0 with size "
                            ++ str n)).

Fixpoint index_rows (table : list rgb) (idx : list Z) : result (list rgb) :=
  match idx with
  | [] => Ok []
  | i :: idx' =>
      px <- index_row table i ;;
      rest <- index_rows table idx' ;;
      Ok (px :: rest)
  end.

Definition rgb_values (px : rgb) : list Z :=
  let '(r, g, b) := px in [r; g; b].

(** [table[a]] for an integer array [a] of any shape (advanced
    indexing): the result has shape [a.shape + (3,)]. *)
Definition take_rows (table : list rgb) (a : ndarray) : result ndarray :=
  rows <- index_rows table (data a) ;;
  Ok {| shape := shape a ++ [3%nat]; data := flat_map rgb_values rows |}.

(** [row.reshape(1, -1)] of a one-dimensional array. *)
Definition reshape_1_m1 (row : list Z) : ndarray :=
  {| shape := [1%nat; length row]; data := row |}.

End Numpy.

(** ** Pillow: resizing an 8-bit single-band image *)

Module Pillow.

(** A mode ["L"] image: [ysize] rows of [xsize] bytes. *)
Record image : Type :=
  mk_image { xsize : nat; ysize : nat; image8 : list (list Z) }.

(** [Image.fromarray(a, mode='L')] for a two-dimensional array given by
    its rows: the shape [(h, w)] becomes the size [(w, h)]. *)
Definition fromarray_L (rows : list (list Z)) : image :=
  {| xsize := length (hd [] rows); ysize := length rows; image8 := rows |}.

(** [np.array(img)]: the rows again. *)
Definition to_rows (img : image) : list (list Z) := image8 img.

(** Fixed-point precision of the 8-bit resampling passes. *)
Definition PRECISION_BITS : Z := 32 - 8 - 2.

(** Back from fixed point to a byte, saturating at both ends. *)
Definition clip8 (v : Z) : Z :=
  let q := Z.shiftr v PRECISION_BITS in
  if q <? 0 then 0 else if 255 <? q then 255 else q.

(** One output sample: the weights [k] applied to the input samples from
    [lo] on, accumulated from one half in fixed point. *)
Definition convolve (samples : list Z) (lo : nat) (k : list Z) : Z :=
  clip8 (fold_left
           (fun ss xk => ss + nth (fst xk + lo) samples 0 * snd xk)
           (combine (seq 0 (length k)) k)
           (Z.shiftl 1 (PRECISION_BITS - 1))).

(** Limits of the C types of the extension module (LP64). *)
Definition INT_MAX : Z := 2147483647.
Definition INT_MIN : Z := -2147483648.
Definition LONG_MAX : Z := 9223372036854775807.
Definition LONG_MIN : Z := -9223372036854775808.

(** A Python int received as a C [int] (argument format [i]): outside
    the range of [int] the call raises [OverflowError]. *)
Definition parse_int (v : Z) : result Z :=
  if (v <? LONG_MIN) || (LONG_MAX <? v) then
    Raise (OverflowError "Python int too large to convert to C long")
  else if INT_MAX <? v then
    Raise (OverflowError "signed integer is greater than maximum")
  else if v <? INT_MIN then
    Raise (OverflowError "signed integer is less than minimum")
  else Ok v.

(** Arithmetic on C [int]s, wrapping around. *)
Definition to_int (z : Z) : Z := (z - INT_MIN) mod 2 ^ 32 + INT_MIN.

(** [ksize] of [precompute_coeffs] for the Lanczos filter (support 3):
    the largest number of input samples one output sample reads,
    [(int)ceil(support * max(1, in / out)) * 2 + 1] in double precision. *)
Definition kernel_size (in_size out_size : Z) : Z :=
  let scale := Float64.div (Float64.of_Z in_size) (Float64.of_Z out_size) in
  let filterscale :=
    if Float64.ltb scale (Float64.of_Z 1) then Float64.of_Z 1 else scale in
  let support := Float64.mul (Float64.of_Z 3) filterscale in
  let c := match Float64.ceil_Z support with Some c => c | None => 0 end in
  to_int (to_int c * 2 + 1).

(** The overflow check of [precompute_coeffs] on its coefficient buffer,
    [outSize > INT_MAX / (ksize * sizeof(double))]; when it fails, the
    resize raises [MemoryError]. *)
Definition coefficients_fit (in_size out_size : Z) : bool :=
  out_size <=? Z.quot INT_MAX (to_int (kernel_size in_size out_size * 8)).

(** What a resize to [(w, h)] goes through before any sample is computed:
    the two sizes are parsed as C [int]s, must be at least one, and the
    coefficient buffers of the horizontal and of the vertical pass must
    fit. *)
Definition resize_checks (in_w in_h w h : Z) : result unit :=
  xs <- parse_int w ;;
  ys <- parse_int h ;;
  if (xs <? 1) || (ys <? 1) then
    Raise (ValueError "height and width must be > 0")
  else if negb (coefficients_fit in_w xs) then Raise MemoryError
  else if negb (coefficients_fit in_h ys) then Raise MemoryError
  else Ok tt.

Section Resample.

(** The table Pillow precomputes for the Lanczos filter
    ([precompute_coeffs] followed by [normalize_coeffs_8bpc]): for an
    input size, an output size and an output position, the first input
    position and the fixed-point weights of the input samples that
    contribute.  The weights come from floating-point evaluations of
    the windowed sinc and are a parameter here. *)
Variable lanczos : nat -> nat -> nat -> nat * list Z.

Definition resample_line (line : list Z) (in_size out_size : nat) : list Z :=
  map (fun xx => let '(lo, k) := lanczos in_size out_size xx in
                 convolve line lo k)
      (seq 0 out_size).

Definition ImagingResampleHorizontal_8bpc (img : image) (out_xsize : nat)
  : image :=
  {| xsize := out_xsize; ysize := ysize img;
     image8 := map (fun line => resample_line line (xsize img) out_xsize)
                   (image8 img) |}.

Definition column (img : image) (xx : nat) : list Z :=
  map (fun line => nth xx line 0) (image8 img).

Definition ImagingResampleVertical_8bpc (img : image) (out_ysize : nat)
  : image :=
  {| xsize := xsize img; ysize := out_ysize;
     image8 :=
       map (fun yy =>
              let '(lo, k) := lanczos (ysize img) out_ysize yy in
              map (fun xx => convolve (column img xx) lo k)
                  (seq 0 (xsize img)))
           (seq 0 out_ysize) |}.

(** [img.resize((w, h), Image.Resampling.LANCZOS)] on a mode ["L"]
    image: a copy when the size does not change; otherwise the checks
    above, then the horizontal pass followed by the vertical pass, each
    only when its dimension changes. *)
Definition resize (img : image) (w h : Z) : result image :=
  if (w =? Z.of_nat (xsize img)) && (h =? Z.of_nat (ysize img)) then Ok img
  else
    _ <- resize_checks (Z.of_nat (xsize img)) (Z.of_nat (ysize img)) w h ;;
    let img1 :=
      if w =? Z.of_nat (xsize img) then img
      else ImagingResampleHorizontal_8bpc img (Z.to_nat w) in
    let img2 :=
      if h =? Z.of_nat (ysize img) then img1
      else ImagingResampleVertical_8bpc img1 (Z.to_nat h) in
    Ok img2.
End Resample.

End Pillow.

(** ** What the platform supplies

The three things the Python source takes from its environment and
that are not determined by the source itself. *)
Record platform : Type := mk_platform {
(** result of an out-of-range float-to-byte conversion *)
cast_undefined : float64 -> Z;
(** Pillow's fixed-point Lanczos weights *)
lanczos : nat -> nat -> nat -> nat * list Z;
(** [Image.fromarray(a, mode='RGB').save(buffer, format='PNG',
  optimize=True)] followed by [buffer.getvalue()] *)
png_save : Numpy.ndarray -> result (list byte)
}.

(** ** app/processing/image.py *)

Module Image.

Import Numpy.

Definition COLOR_STOPS : list (Z * rgb) :=
  [ (0, (0, 0, 128));
    (64, (0, 128, 255));
    (128, (0, 255, 128));
    (192, (255, 255, 0));
    (255, (255, 0, 0)) ].

Section WithPlatform.

Variable P : platform.

(** The body of [for channel in range(3)] for one pair of stops. *)
Definition interpolate_channel (start_stop end_stop : Z * rgb)
    (lut : list rgb) (c : nat) : result (list rgb) :=
  let '(start_idx, start_color) := start_stop in
  let '(end_idx, end_color) := end_stop in
  let num_steps := end_idx - start_idx in
  vals <- linspace_uint8 (cast_undefined P)
            (channel c start_color) (channel c end_color) (num_steps + 1) ;;
  assign_column lut start_idx (end_idx + 1) c vals.

Definition interpolate_segment (start_stop end_stop : Z * rgb)
    (lut : list rgb) : result (list rgb) :=
  lut <- interpolate_channel start_stop end_stop lut 0 ;;
  lut <- interpolate_channel start_stop end_stop lut 1 ;;
  interpolate_channel start_stop end_stop lut 2.

(** The loop [for i in range(len(stops) - 1)] over consecutive pairs. *)
Fixpoint interpolate_stops (stops : list (Z * rgb)) (lut : list rgb)
  : result (list rgb) :=
  match stops with
  | s0 :: ((s1 :: _) as rest) =>
      lut <- interpolate_segment s0 s1 lut ;;
      interpolate_stops rest lut
  | _ => Ok lut
  end.

Definition generate_colormap_lut : M (list rgb) :=
  lut <~ lift (interpolate_stops COLOR_STOPS (zeros 256)) ;;
  _ <~ debug "Generated colormap LUT" ;;
  ret lut.

(** The table computed once when the module is imported (an exception
    there would abort the import; there is then no module to call). *)
Definition COLORMAP_LUT : list rgb :=
  match fst (generate_colormap_lut []) with
  | Ok lut => lut
  | Raise _ => []
  end.

Definition apply_colormap (grayscale : ndarray) : result ndarray :=
  take_rows COLORMAP_LUT grayscale.

Definition resize_grayscale_row (row : list Z) (target_width : Z)
  : result (list Z) :=
  let img := Pillow.fromarray_L [row] in
  resized_img <- Pillow.resize (lanczos P) img target_width 1 ;;
  Ok (concat (Pillow.to_rows resized_img)).

Definition encode_to_png (rgb_array : ndarray) : M (list byte) :=
  png_bytes <~ lift (png_save P rgb_array) ;;
  _ <~ debug "Encoded to PNG" ;;
  ret png_bytes.

(** [np.clip(np.array(row_data, dtype=np.float64), 0, 255)
    .astype(np.uint8)]. *)
Definition to_grayscale (row_data : list float64) : list Z :=
  map (fun x => astype_uint8 (cast_undefined P) (clip x 0 255)) row_data.

Definition process_row_to_png (row_data : list float64)
    (source_width target_width : Z) : M (list byte * Z * Z) :=
  let grayscale := to_grayscale row_data in
  if negb (len grayscale =? source_width) then
    raise (ValueError ("Expected " ++ str source_width
                         ++ " pixel values, got " ++ str (len grayscale)))
  else
    resized_gray <~ lift (resize_grayscale_row grayscale target_width) ;;
    rgb <~ lift (apply_colormap (reshape_1_m1 resized_gray)) ;;
    png_bytes <~ encode_to_png rgb ;;
    ret (png_bytes, target_width, 1).

End WithPlatform.

End Image.

(** ** Definitions used to state the properties *)

Import Numpy.

(** [lut[p]] of the table built at import. *)
Definition lut_at (P : platform) (p : Z) : rgb :=
  nth (Z.to_nat p) (Image.COLORMAP_LUT P) (0, 0, 0).

(** The consecutive pairs of colour stops. *)
Definition adjacent_stops : list ((Z * rgb) * (Z * rgb)) :=
  combine Image.COLOR_STOPS (tl Image.COLOR_STOPS).

Definition is_uint8 (v : Z) : Prop := 0 <= v <= 255.

(** A platform on which the statements can be evaluated: out-of-range
    conversions give zero, every output sample copies the first input
    sample, and the PNG writer returns no bytes. *)
Definition sample_platform : platform :=
  {| cast_undefined := fun _ => 0;
     lanczos := fun _ _ _ => (0%nat, [Z.shiftl 1 Pillow.PRECISION_BITS]);
     png_save := fun _ => Ok [] |}.

(** The message of the length check of [process_row_to_png]. *)
Definition length_message (expected actual : Z) : string :=
  ("Expected " ++ str expected ++ " pixel values, got " ++ str actual)%string.

(** The table as a literal, so that later checks do not rebuild it. *)
Definition COLORMAP_table : list rgb :=
  Eval vm_compute in Image.COLORMAP_LUT sample_platform.

(** Checking a decidable property on every integer of an interval. *)
Definition Zinterval (a b : Z) : list Z :=
  map (fun k => a + Z.of_nat k) (seq 0 (Z.to_nat (b - a + 1))).

(** Numerator and denominator of the exact linear interpolation of channel
    [c] between the stops [lo] and [hi] at position [p]. *)
Definition interp_num (lo hi : Z * rgb) (c : nat) (p : Z) : Z :=
  channel c (snd lo) * (fst hi - fst lo)
  + (channel c (snd hi) - channel c (snd lo)) * (p - fst lo).

Definition interp_den (lo hi : Z * rgb) : Z := fst hi - fst lo.

(** [v] is an integer nearest to [num / den] (either neighbour on a tie). *)
Definition nearest_integer (num den v : Z) : Prop :=
  2 * Z.abs (den * v - num) <= den.

(** C3 as the specification words it: the entry is the interpolated value
    rounded to an integer. *)
Definition rounded_interpolation (P : platform) (lo hi : Z * rgb) (c : nat)
    (p : Z) : Prop :=
  nearest_integer (interp_num lo hi c p) (interp_den lo hi)
                  (channel c (lut_at P p))
  /\ is_uint8 (channel c (lut_at P p)).

(** What the code computes: the interpolated value rounded down. *)
Definition floored_interpolation (P : platform) (lo hi : Z * rgb) (c : nat)
    (p : Z) : Prop :=
  channel c (lut_at P p) = interp_num lo hi c p / interp_den lo hi
  /\ is_uint8 (channel c (lut_at P p)).

Definition floored_check (lo hi : Z * rgb) (c : nat) (p : Z) : bool :=
  let v := channel c (nth (Z.to_nat p) COLORMAP_table (0, 0, 0)) in
  (v =? interp_num lo hi c p / interp_den lo hi) && (0 <=? v) && (v <=? 255).

(** [b] lies strictly beyond [a] on the way to [target], and not past it. *)
Definition strictly_toward (target a b : Z) : Prop :=
  a < b <= target \/ target <= b < a.

(** C4 as the specification words it: from one position to the next, each
    channel moves strictly toward the value of the next stop. *)
Definition strict_trend (P : platform) (lo hi : Z * rgb) (c : nat) (p : Z)
  : Prop :=
  strictly_toward (channel c (snd hi))
                  (channel c (lut_at P p)) (channel c (lut_at P (p + 1))).

(** No entry of the segment leaves the interval spanned by the two stops. *)
Definition no_overshoot (P : platform) (lo hi : Z * rgb) (c : nat) (p : Z)
  : Prop :=
  Z.min (channel c (snd lo)) (channel c (snd hi))
  <= channel c (lut_at P p)
  <= Z.max (channel c (snd lo)) (channel c (snd hi)).

(** What the code does for a step inside a segment: a strict move toward
    the next stop when the two stops differ on the channel, no move when
    they agree. *)
Definition trend (P : platform) (lo hi : Z * rgb) (c : nat) (p : Z) : Prop :=
  (channel c (snd lo) <> channel c (snd hi) -> strict_trend P lo hi c p)
  /\ (channel c (snd lo) = channel c (snd hi) ->
      channel c (lut_at P p) = channel c (snd lo)
      /\ channel c (lut_at P (p + 1)) = channel c (snd lo)).

Definition no_overshoot_check (lo hi : Z * rgb) (c : nat) (p : Z) : bool :=
  let v := channel c (nth (Z.to_nat p) COLORMAP_table (0, 0, 0)) in
  (Z.min (channel c (snd lo)) (channel c (snd hi)) <=? v)
  && (v <=? Z.max (channel c (snd lo)) (channel c (snd hi))).

Definition trend_check (lo hi : Z * rgb) (c : nat) (p : Z) : bool :=
  let a := channel c (nth (Z.to_nat p) COLORMAP_table (0, 0, 0)) in
  let b := channel c (nth (Z.to_nat (p + 1)) COLORMAP_table (0, 0, 0)) in
  let s := channel c (snd lo) in
  let t := channel c (snd hi) in
  if s =? t then (a =? s) && (b =? s)
  else ((a <? b) && (b <=? t)) || ((t <=? b) && (b <? a)).

(** The conversion [process_row_to_png] applies to one raw sample. *)
Definition to_byte (P : platform) (x : float64) : Z :=
  astype_uint8 (cast_undefined P) (clip x 0 255).

(** C9 as the specification words it: an invalid pair of widths is refused
    once and for all, by one error that does not depend on the row. *)
Definition rejected_at_construction (P : platform)
    (source_width target_width : Z) : Prop :=
  exists e, forall row_data w,
    fst (Image.process_row_to_png P row_data source_width target_width w)
    = Raise e.

(** What the code does: the call on this row raises [e] and leaves the
    process state as it was. *)
Definition raises (P : platform) (row_data : list float64)
    (source_width target_width : Z) (e : exn) : Prop :=
  forall w,
    Image.process_row_to_png P row_data source_width target_width w
    = (Raise e, w).

(** The exception the resize step raises for a target width below one:
    [OverflowError] outside the range of a C [int], [ValueError] inside. *)
Definition width_rejection (target_width : Z) : exn :=
  match Pillow.parse_int target_width with
  | Raise e => e
  | Ok _ => ValueError "height and width must be > 0"
  end.

(** The RGB array the colour mapping makes of a resized row: one row of
    pixels, pixel [i] showing [lut[resized[i]]]. *)
Definition colorized (P : platform) (resized : list Z) : ndarray :=
  {| shape := [1%nat; length resized; 3%nat];
     data := flat_map rgb_values (map (lut_at P) resized) |}.

(** The record [encode_to_png] logs. *)
Definition encoded_record : string := "Encoded to PNG".

(** Saturation of an integer to a byte. *)
Definition saturate (z : Z) : Z := Z.max 0 (Z.min 255 z).

(** [x <= y] on float64 values; false when either is a NaN. *)
Definition float_le (x y : float64) : Prop :=
  Float64.compare x y = Some Lt \/ Float64.compare x y = Some Eq.

(** The integers NumPy accepts as an index into the 256-row table. *)
Definition valid_index (v : Z) : Prop := -256 <= v <= 255.

(** NumPy's message for an index outside the table. *)
Definition index_message (v : Z) : string :=
  ("index " ++ str v ++ " is out of bounds for axis 0 with size 256")%string.

Definition rgb_eqb (a b : rgb) : bool :=
  (channel 0 a =? channel 0 b) && (channel 1 a =? channel 1 b)
  && (channel 2 a =? channel 2 b).

(** The entries of two intensities differ unless the intensities are the
    same. *)
Definition distinct_entries (a b : Z) : bool :=
  implb (rgb_eqb (nth (Z.to_nat a) COLORMAP_table (0, 0, 0))
                 (nth (Z.to_nat b) COLORMAP_table (0, 0, 0)))
        (a =? b).

Definition injective_row (a : Z) : bool :=
  forallb (distinct_entries a) (Zinterval 0 255).

(** [lut[p]] of any table. *)
Definition entry (lut : list rgb) (p : Z) : rgb :=
  nth (Z.to_nat p) lut (0, 0, 0).

Definition byte_color (px : rgb) : Prop :=
  is_uint8 (channel 0 px) /\ is_uint8 (channel 1 px) /\ is_uint8 (channel 2 px).

(** Positions strictly ascending from one stop to the next. *)
Fixpoint ascending (stops : list (Z * rgb)) : Prop :=
  match stops with
  | s0 :: ((s1 :: _) as rest) => fst s0 < fst s1 /\ ascending rest
  | _ => True
  end.

(** A table of stops the loop of [generate_colormap_lut] can work on:
    strictly ascending positions inside 0..255 and byte colours. *)
Definition valid_stops (stops : list (Z * rgb)) : Prop :=
  ascending stops
  /\ Forall (fun s => is_uint8 (fst s) /\ byte_color (snd s)) stops.

(** The term [linspace] adds to [start] for its first sample, for a
    difference [d] between the end values and [n] steps. *)
Definition first_term (d n : Z) : float64 :=
  let delta := Float64.of_Z d in
  let step := Float64.div delta (Float64.of_Z n) in
  if Float64.is_zero step then
    Float64.mul (Float64.div (Float64.of_Z 0) (Float64.of_Z n)) delta
  else Float64.mul (Float64.of_Z 0) step.

Definition float_eqb (x y : float64) : bool :=
  match x, y with
  | S754_zero s, S754_zero s' => Bool.eqb s s'
  | S754_finite s m e, S754_finite s' m' e' =>
      Bool.eqb s s' && Pos.eqb m m' && Z.eqb e e'
  | _, _ => false
  end.

Definition difference_exact (a b : Z) : bool :=
  float_eqb (Float64.sub (Float64.of_Z b) (Float64.of_Z a)) (Float64.of_Z (b - a)).

(** * Properties *)

(** ** The lookup table *)

Lemma interpolate_stops_ok (P : platform) :
  Image.interpolate_stops P Image.COLOR_STOPS (zeros 256)
  = Ok (Image.COLORMAP_LUT P).
Proof. vm_compute. reflexivity. Qed.

Lemma generate_colormap_lut_run (P : platform) (w : world) :
  Image.generate_colormap_lut P w
  = (Ok (Image.COLORMAP_LUT P), w ++ ["Generated colormap LUT"%string]).
Proof.
  unfold Image.generate_colormap_lut, mbind, lift, debug, ret.
  rewrite interpolate_stops_ok. reflexivity.
Qed.

Lemma COLORMAP_LUT_length (P : platform) :
  length (Image.COLORMAP_LUT P) = 256%nat.
Proof. vm_compute. reflexivity. Qed.

(** C5: the table built from the five compiled-in stops starts at dark blue
    and ends at red, the colours of the first and the last stop:
    [lut[0] == (0, 0, 128)] and [lut[255] == (255, 0, 0)]. *)
Theorem lut_boundary_colors (P : platform) (w : world) :
  exists lut,
    fst (Image.generate_colormap_lut P w) = Ok lut
    /\ index_row lut 0 = Ok (0, 0, 128)
    /\ index_row lut 255 = Ok (255, 0, 0)
    /\ hd_error Image.COLOR_STOPS = Some (0, (0, 0, 128))
    /\ last Image.COLOR_STOPS (0, (0, 0, 0)) = (255, (255, 0, 0)).
Proof.
  exists (Image.COLORMAP_LUT P).
  rewrite generate_colormap_lut_run.
  repeat split; vm_compute; reflexivity.
Qed.

Lemma COLORMAP_LUT_table (P : platform) : Image.COLORMAP_LUT P = COLORMAP_table.
Proof. vm_compute. reflexivity. Qed.

Lemma Zinterval_In (a b p : Z) : a <= p <= b -> In p (Zinterval a b).
Proof.
  intros Hp. unfold Zinterval. apply in_map_iff.
  exists (Z.to_nat (p - a)). split; [lia|].
  apply in_seq. lia.
Qed.

Lemma Zinterval_forallb (f : Z -> bool) (a b : Z) :
  forallb f (Zinterval a b) = true -> forall p, a <= p <= b -> f p = true.
Proof.
  intros Hall p Hp. rewrite forallb_forall in Hall.
  apply Hall, Zinterval_In, Hp.
Qed.

Lemma adjacent_stops_cases (lo hi : Z * rgb) :
  In (lo, hi) adjacent_stops ->
  (lo, hi) = ((0, (0, 0, 128)), (64, (0, 128, 255)))
  \/ (lo, hi) = ((64, (0, 128, 255)), (128, (0, 255, 128)))
  \/ (lo, hi) = ((128, (0, 255, 128)), (192, (255, 255, 0)))
  \/ (lo, hi) = ((192, (255, 255, 0)), (255, (255, 0, 0))).
Proof.
  cbn. intros [H | [H | [H | [H | []]]]]; symmetry in H; auto.
Qed.

Lemma floored_check_sound (P : platform) lo hi c p :
  floored_check lo hi c p = true -> floored_interpolation P lo hi c p.
Proof.
  unfold floored_check, floored_interpolation, is_uint8, lut_at.
  rewrite COLORMAP_LUT_table. cbv zeta.
  rewrite !andb_true_iff, Z.eqb_eq, !Z.leb_le. tauto.
Qed.

Ltac each_channel c Hc :=
  destruct c as [|[|[|c]]]; [ | | | exfalso; lia ].

Ltac each_segment H :=
  apply adjacent_stops_cases in H;
  destruct H as [H | [H | [H | H]]]; inversion H; subst; clear H.

(** C3, counterexample: between the first two stops the blue channel goes
    from 128 to 255 in 64 steps, so at position 1 the interpolated value is
    129 + 63/64, whose nearest integer is 130; the table holds 129. *)
Lemma lut_entry_not_rounded :
  channel 2 (lut_at sample_platform 1) = 129
  /\ interp_num (0, (0, 0, 128)) (64, (0, 128, 255)) 2 1 = 129 * 64 + 63
  /\ interp_den (0, (0, 0, 128)) (64, (0, 128, 255)) = 64
  /\ ~ rounded_interpolation sample_platform
         (0, (0, 0, 128)) (64, (0, 128, 255)) 2 1.
Proof.
  repeat split; try (vm_compute; reflexivity).
  intros [Hnear _]. revert Hnear. unfold nearest_integer.
  vm_compute. intros H. apply H. reflexivity.
Qed.

(** C3, amended: for every consecutive pair of stops and every position of
    the inclusive range between them, each channel of the table entry is
    the linear interpolation between the two stops rounded down to an
    integer, and lies in 0..255. *)
Theorem lut_floor_interpolation (P : platform) (lo hi : Z * rgb) (c : nat)
    (p : Z) :
  In (lo, hi) adjacent_stops ->
  fst lo <= p <= fst hi ->
  (c < 3)%nat ->
  floored_interpolation P lo hi c p.
Proof.
  intros Hseg Hp Hc. apply floored_check_sound.
  each_segment Hseg; each_channel c Hc; cbn [fst] in Hp;
    revert p Hp; apply Zinterval_forallb; vm_compute; reflexivity.
Qed.

Lemma lut_floor_interpolation_witness :
  floored_interpolation sample_platform
    (192, (255, 255, 0)) (255, (255, 0, 0)) 1 200.
Proof.
  apply (lut_floor_interpolation sample_platform
           (192, (255, 255, 0)) (255, (255, 0, 0)) 1%nat 200).
  - cbn. tauto.
  - cbn. lia.
  - lia.
Defined.

Lemma no_overshoot_check_sound (P : platform) lo hi c p :
  no_overshoot_check lo hi c p = true -> no_overshoot P lo hi c p.
Proof.
  unfold no_overshoot_check, no_overshoot, lut_at.
  rewrite COLORMAP_LUT_table. cbv zeta.
  rewrite andb_true_iff, !Z.leb_le. tauto.
Qed.

Lemma trend_check_sound (P : platform) lo hi c p :
  trend_check lo hi c p = true -> trend P lo hi c p.
Proof.
  unfold trend_check, trend, strict_trend, strictly_toward, lut_at.
  rewrite COLORMAP_LUT_table. cbv zeta.
  destruct (Z.eqb_spec (channel c (snd lo)) (channel c (snd hi))) as [E | E].
  - rewrite andb_true_iff, !Z.eqb_eq. intros [Ha Hb]. split; [tauto|].
    intros _. split; assumption.
  - rewrite orb_true_iff, !andb_true_iff, !Z.ltb_lt, !Z.leb_le.
    intros H. split; [intros _; exact H | intros E'; contradiction].
Qed.

(** C4, counterexample: the first two stops both have red 0, and the red
    channel stays at 0 from position 0 to position 1: it does not move
    strictly. *)
Lemma lut_constant_channel_not_strict :
  channel 0 (lut_at sample_platform 0) = 0
  /\ channel 0 (lut_at sample_platform 1) = 0
  /\ In ((0, (0, 0, 128)), (64, (0, 128, 255))) adjacent_stops
  /\ ~ strict_trend sample_platform (0, (0, 0, 128)) (64, (0, 128, 255)) 0 0.
Proof.
  repeat split; try (vm_compute; reflexivity).
  - cbn. tauto.
  - unfold strict_trend, strictly_toward. vm_compute.
    intros [[H _] | [_ H]]; discriminate H.
Qed.

(** C4, amended: for every adjacent pair of stops, each channel on which
    the two stops differ moves strictly, step by step, from the first
    stop's value toward the next stop's value; a channel on which they
    agree stays at that value; and no entry of the segment lies outside
    the two endpoint values. *)
Theorem lut_trend_between_stops (P : platform) (lo hi : Z * rgb) (c : nat) :
  In (lo, hi) adjacent_stops ->
  (c < 3)%nat ->
  (forall p, fst lo <= p <= fst hi -> no_overshoot P lo hi c p)
  /\ (forall p, fst lo <= p <= fst hi - 1 -> trend P lo hi c p).
Proof.
  intros Hseg Hc. split; intros p Hp.
  - apply no_overshoot_check_sound.
    each_segment Hseg; each_channel c Hc; cbn [fst] in Hp;
      revert p Hp; apply Zinterval_forallb; vm_compute; reflexivity.
  - apply trend_check_sound.
    each_segment Hseg; each_channel c Hc; cbn [fst] in Hp;
      revert p Hp; apply Zinterval_forallb; vm_compute; reflexivity.
Qed.

Lemma lut_trend_between_stops_witness :
  no_overshoot sample_platform (192, (255, 255, 0)) (255, (255, 0, 0)) 1 255
  /\ trend sample_platform (192, (255, 255, 0)) (255, (255, 0, 0)) 1 254.
Proof.
  assert (Hseg : In ((192, (255, 255, 0)), (255, (255, 0, 0))) adjacent_stops)
    by (cbn; tauto).
  assert (Hc : (1 < 3)%nat) by lia.
  split.
  - apply (proj1 (lut_trend_between_stops sample_platform _ _ 1%nat Hseg Hc)).
    cbn. lia.
  - apply (proj2 (lut_trend_between_stops sample_platform _ _ 1%nat Hseg Hc)).
    cbn. lia.
Defined.

(** ** Clamping *)

Lemma of_Z_0 : Float64.of_Z 0 = S754_zero false.
Proof. reflexivity. Qed.

Lemma of_Z_255 : Float64.of_Z 255 = S754_finite false (255 * 2 ^ 45) (-45).
Proof. vm_compute. reflexivity. Qed.

Lemma compare_scale (a b c : Z) : 0 < c -> (a * c ?= b * c) = (a ?= b).
Proof.
  intros Hc. destruct (Z.compare_spec a b) as [E | E | E].
  - subst. apply Z.compare_refl.
  - apply Z.compare_lt_iff. nia.
  - apply Z.compare_gt_iff. nia.
Qed.

Lemma compare_finite_0 (s : bool) (m : positive) (e : Z) :
  Float64.compare (S754_finite s m e) (Float64.of_Z 0)
  = Some (if s then Lt else Gt).
Proof.
  rewrite of_Z_0. unfold Float64.compare.
  cbn [Float64.Fnum Float64.Fexp]. f_equal.
  assert (Hpow : 0 < 2 ^ (e - Z.min e 0)) by (apply Z.pow_pos_nonneg; lia).
  destruct s.
  - apply Z.compare_lt_iff. rewrite Z.mul_0_l.
    apply Z.mul_neg_pos; [reflexivity | exact Hpow].
  - apply Z.compare_gt_iff. rewrite Z.mul_0_l.
    apply Z.mul_pos_pos; [reflexivity | exact Hpow].
Qed.

Lemma compare_negative_255 (m : positive) (e : Z) :
  Float64.compare (S754_finite true m e) (Float64.of_Z 255) = Some Lt.
Proof.
  rewrite of_Z_255. unfold Float64.compare.
  cbn [Float64.Fnum Float64.Fexp]. f_equal.
  apply Z.compare_lt_iff.
  assert (H1 : 0 < 2 ^ (e - Z.min e (-45))) by (apply Z.pow_pos_nonneg; lia).
  assert (H2 : 0 < 2 ^ (-45 - Z.min e (-45))) by (apply Z.pow_pos_nonneg; lia).
  apply Z.lt_trans with 0.
  - apply Z.mul_neg_pos; [reflexivity | exact H1].
  - apply Z.mul_pos_pos; [reflexivity | exact H2].
Qed.

Lemma compare_finite_255 (m : positive) (e : Z) :
  Float64.compare (S754_finite false m e) (Float64.of_Z 255)
  = Some (if 0 <=? e then Z.compare (Zpos m * 2 ^ e) 255
          else Z.compare (Zpos m) (255 * 2 ^ (- e))).
Proof.
  rewrite of_Z_255. unfold Float64.compare.
  cbn [Float64.Fnum Float64.Fexp]. f_equal.
  change (Z.pos (255 * 2 ^ 45)) with (255 * 2 ^ 45).
  destruct (Z.leb_spec 0 e) as [He | He].
  - rewrite Z.min_r by lia.
    replace (e - -45) with (e + 45) by lia.
    replace (-45 - -45) with 0 by lia.
    rewrite Z.pow_add_r by lia. rewrite Z.pow_0_r, Z.mul_1_r, Z.mul_assoc.
    apply compare_scale. reflexivity.
  - destruct (Z.le_gt_cases (-45) e) as [Hle | Hgt].
    + rewrite Z.min_r by lia.
      replace (-45 - -45) with 0 by lia. rewrite Z.pow_0_r, Z.mul_1_r.
      replace (e - -45) with (e + 45) by lia.
      replace (2 ^ 45) with (2 ^ (- e) * 2 ^ (e + 45)).
      * rewrite Z.mul_assoc. apply compare_scale.
        apply Z.pow_pos_nonneg; lia.
      * rewrite <- Z.pow_add_r by lia. f_equal. lia.
    + rewrite Z.min_l by lia.
      replace (e - e) with 0 by lia. rewrite Z.pow_0_r, Z.mul_1_r.
      rewrite <- Z.mul_assoc, <- Z.pow_add_r by lia.
      replace (45 + (-45 - e)) with (- e) by lia. reflexivity.
Qed.

(** The integer part of a positive finite value. *)
Lemma trunc_Z_pos (m : positive) (e : Z) :
  Float64.trunc_Z (S754_finite false m e)
  = Some (if 0 <=? e then Zpos m * 2 ^ e else Zpos m / 2 ^ (- e)).
Proof.
  unfold Float64.trunc_Z. cbn [Float64.Fnum]. f_equal.
  destruct (Z.leb_spec 0 e) as [He | He]; [reflexivity|].
  apply Z.quot_div_nonneg; [lia | apply Z.pow_pos_nonneg; lia].
Qed.

Lemma astype_uint8_range (cu : float64 -> Z) (x : float64) :
  is_uint8 (astype_uint8 cu x).
Proof.
  unfold astype_uint8, is_uint8.
  assert (Hmod : 0 <= cu x mod 256 <= 255)
    by (pose proof (Z.mod_pos_bound (cu x) 256); lia).
  destruct (Float64.trunc_Z x) as [z|]; [|exact Hmod].
  destruct ((0 <=? z) && (z <=? 255)) eqn:E; [|exact Hmod].
  apply andb_true_iff in E. rewrite !Z.leb_le in E. exact E.
Qed.

Lemma astype_uint8_in_range (cu : float64 -> Z) (x : float64) (z : Z) :
  Float64.trunc_Z x = Some z -> 0 <= z <= 255 -> astype_uint8 cu x = z.
Proof.
  intros Hx Hz. unfold astype_uint8. rewrite Hx.
  replace ((0 <=? z) && (z <=? 255)) with true; [reflexivity|].
  symmetry. apply andb_true_iff. rewrite !Z.leb_le. exact Hz.
Qed.

(** Saturation of one sample: the result is a byte; a value below 0 gives
    0; a value above 255 gives 255; any other number gives its integer
    part. *)
Lemma to_byte_saturates (P : platform) (x : float64) :
  is_uint8 (to_byte P x)
  /\ (Float64.ltb x (Float64.of_Z 0) = true -> to_byte P x = 0)
  /\ (Float64.gtb x (Float64.of_Z 255) = true -> to_byte P x = 255)
  /\ (Float64.is_nan x = false ->
      Float64.ltb x (Float64.of_Z 0) = false ->
      Float64.gtb x (Float64.of_Z 255) = false ->
      Float64.trunc_Z x = Some (to_byte P x)).
Proof.
  split; [apply astype_uint8_range|].
  destruct x as [s | s | | s m e].
  - (* zero *)
    destruct s; vm_compute; repeat split; intros; try discriminate; reflexivity.
  - (* infinity *)
    destruct s; repeat split; try (vm_compute; intros; discriminate);
      try (intros; vm_compute; reflexivity).
  - (* NaN *)
    repeat split; intros; discriminate.
  - (* finite *)
    unfold to_byte, clip, clip_max, clip_min, Float64.ltb, Float64.gtb.
    cbn [Float64.is_nan]. rewrite compare_finite_0.
    destruct s.
    + (* negative: the lower bound replaces it *)
      rewrite compare_negative_255.
      repeat split; intros; try discriminate; vm_compute; reflexivity.
    + cbn [Float64.is_nan]. rewrite compare_finite_255.
      pose proof (trunc_Z_pos m e) as Ht.
      assert (Hpow : forall k, 0 <= k -> 0 < 2 ^ k)
        by (intros; apply Z.pow_pos_nonneg; lia).
      destruct (Z.leb_spec 0 e) as [He | He].
      * destruct (Z.compare_spec (Zpos m * 2 ^ e) 255) as [E | E | E].
        -- repeat split; intros; try discriminate.
           rewrite Ht, E. vm_compute. reflexivity.
        -- repeat split; intros; try discriminate.
           rewrite Ht. f_equal. symmetry.
           apply astype_uint8_in_range; [exact Ht|].
           pose proof (Hpow e He). nia.
        -- repeat split; intros; try discriminate; vm_compute; reflexivity.
      * assert (Hd : 0 < 2 ^ (- e)) by (apply Hpow; lia).
        destruct (Z.compare_spec (Zpos m) (255 * 2 ^ (- e))) as [E | E | E].
        -- repeat split; intros; try discriminate.
           rewrite Ht, E, Z.div_mul by lia. vm_compute. reflexivity.
        -- repeat split; intros; try discriminate.
           rewrite Ht. f_equal. symmetry.
           apply astype_uint8_in_range; [exact Ht|].
           split; [apply Z.div_pos; lia|].
           assert (Zpos m / 2 ^ (- e) < 255)
             by (apply Z.div_lt_upper_bound; lia).
           lia.
        -- repeat split; intros; try discriminate; vm_compute; reflexivity.
Qed.

(** ** Resampling *)

Lemma clip8_range (v : Z) : is_uint8 (Pillow.clip8 v).
Proof.
  unfold Pillow.clip8, is_uint8. cbv zeta.
  destruct (Z.ltb_spec (Z.shiftr v Pillow.PRECISION_BITS) 0); [lia|].
  destruct (Z.ltb_spec 255 (Z.shiftr v Pillow.PRECISION_BITS)); lia.
Qed.

Lemma resample_line_length (k : nat -> nat -> nat -> nat * list Z)
    (line : list Z) (in_size out_size : nat) :
  length (Pillow.resample_line k line in_size out_size) = out_size.
Proof.
  unfold Pillow.resample_line. rewrite length_map, length_seq. reflexivity.
Qed.

Lemma resample_line_range (k : nat -> nat -> nat -> nat * list Z)
    (line : list Z) (in_size out_size : nat) :
  Forall is_uint8 (Pillow.resample_line k line in_size out_size).
Proof.
  unfold Pillow.resample_line. apply Forall_forall. intros v Hv.
  apply in_map_iff in Hv. destruct Hv as [xx [<- _]].
  destruct (k in_size out_size xx) as [lo w]. unfold Pillow.convolve.
  apply clip8_range.
Qed.

Lemma parse_int_in_range (v : Z) :
  Pillow.INT_MIN <= v <= Pillow.INT_MAX -> Pillow.parse_int v = Ok v.
Proof.
  unfold Pillow.parse_int, Pillow.INT_MIN, Pillow.INT_MAX, Pillow.LONG_MIN,
    Pillow.LONG_MAX. intros Hv.
  destruct (Z.ltb_spec v (-9223372036854775808)); [lia|].
  destruct (Z.ltb_spec 9223372036854775807 v); [lia|]. cbn [orb].
  destruct (Z.ltb_spec 2147483647 v); [lia|].
  destruct (Z.ltb_spec v (-2147483648)); [lia | reflexivity].
Qed.

Lemma parse_int_outside (v : Z) :
  v < Pillow.INT_MIN \/ Pillow.INT_MAX < v ->
  exists msg, Pillow.parse_int v = Raise (OverflowError msg).
Proof.
  unfold Pillow.parse_int, Pillow.INT_MIN, Pillow.INT_MAX, Pillow.LONG_MIN,
    Pillow.LONG_MAX. intros Hv.
  destruct ((v <? -9223372036854775808) || (9223372036854775807 <? v));
    [eexists; reflexivity|].
  destruct (Z.ltb_spec 2147483647 v); [eexists; reflexivity|].
  destruct (Z.ltb_spec v (-2147483648)); [eexists; reflexivity | lia].
Qed.

Lemma parse_int_cases (v : Z) :
  Pillow.parse_int v = Ok v
  \/ exists msg, Pillow.parse_int v = Raise (OverflowError msg).
Proof.
  destruct (Z_lt_dec v Pillow.INT_MIN); [right; apply parse_int_outside; lia|].
  destruct (Z_lt_dec Pillow.INT_MAX v); [right; apply parse_int_outside; lia|].
  left. apply parse_int_in_range. lia.
Qed.

(** A width whose coefficient buffer fits is a C [int]. *)
Lemma coefficients_fit_bound (in_size out_size : Z) :
  Pillow.coefficients_fit in_size out_size = true -> out_size <= Pillow.INT_MAX.
Proof.
  unfold Pillow.coefficients_fit. intros Hfit. apply Z.leb_le in Hfit.
  set (v := Pillow.to_int (Pillow.kernel_size in_size out_size * 8)) in *.
  assert (Hq : Z.quot Pillow.INT_MAX v <= Pillow.INT_MAX); [|lia].
  unfold Pillow.INT_MAX.
  destruct (Z_lt_dec 0 v) as [Hv | Hv].
  - rewrite Z.quot_div_nonneg by lia.
    apply Z.div_le_upper_bound; nia.
  - destruct (Z.eq_dec v 0) as [Hz | Hne];
      [rewrite Hz; change (Z.quot 2147483647 0) with 0; lia|].
    assert (Hneg : Z.quot 2147483647 v <= 0); [|lia].
    replace v with (- - v) by lia. rewrite Z.quot_opp_r by lia.
    assert (0 <= Z.quot 2147483647 (- v)) by (apply Z.quot_pos; lia). lia.
Qed.

(** The outcomes of resizing one row. *)
Lemma resize_grayscale_row_cases (P : platform) (row : list Z) (target_width : Z) :
  Image.resize_grayscale_row P row target_width
  = if target_width =? len row then Ok row
    else
      match Pillow.parse_int target_width with
      | Raise e => Raise e
      | Ok _ =>
          if target_width <? 1 then
            Raise (ValueError "height and width must be > 0")
          else if Pillow.coefficients_fit (len row) target_width then
            Ok (Pillow.resample_line (lanczos P) row (length row)
                  (Z.to_nat target_width))
          else Raise MemoryError
      end.
Proof.
  unfold Image.resize_grayscale_row, Pillow.resize, Pillow.fromarray_L, len.
  cbn [Pillow.xsize Pillow.ysize hd length].
  change (1 =? Z.of_nat 1) with true. rewrite andb_true_r.
  destruct (target_width =? Z.of_nat (length row)).
  - cbn. rewrite app_nil_r. reflexivity.
  - unfold Pillow.resize_checks.
    destruct (parse_int_cases target_width) as [-> | [msg ->]];
      [|reflexivity].
    cbn [bind]. change (Pillow.parse_int 1) with (Ok 1). cbn [bind].
    change (1 <? 1) with false. rewrite orb_false_r.
    destruct (target_width <? 1); [reflexivity|].
    destruct (Pillow.coefficients_fit (Z.of_nat (length row)) target_width);
      [|reflexivity].
    cbn [negb].
    change (Pillow.coefficients_fit (Z.of_nat 1) 1) with true.
    cbn. rewrite app_nil_r. reflexivity.
Qed.

Lemma resize_grayscale_row_range (P : platform) (row out : list Z) (tw : Z) :
  Forall is_uint8 row ->
  Image.resize_grayscale_row P row tw = Ok out ->
  Forall is_uint8 out.
Proof.
  intros Hrow. rewrite resize_grayscale_row_cases.
  destruct (tw =? len row).
  - intros [= <-]. exact Hrow.
  - destruct (Pillow.parse_int tw); [|discriminate].
    destruct (tw <? 1); [discriminate|].
    destruct (Pillow.coefficients_fit (len row) tw); [|discriminate].
    intros [= <-]. apply resample_line_range.
Qed.

(** A width the resize accepts: the row's own length, or a positive width
    whose coefficient buffer fits. *)
Lemma resize_grayscale_row_accepted (P : platform) (row : list Z) (tw : Z) :
  tw = len row \/ (0 < tw /\ Pillow.coefficients_fit (len row) tw = true) ->
  exists out,
    Image.resize_grayscale_row P row tw = Ok out /\ len out = tw.
Proof.
  intros Hacc. rewrite resize_grayscale_row_cases.
  destruct (Z.eqb_spec tw (len row)) as [E | E].
  - exists row. split; [reflexivity | symmetry; exact E].
  - destruct Hacc as [Hacc | [Hpos Hfit]]; [contradiction|].
    pose proof (coefficients_fit_bound _ _ Hfit) as Hmax.
    rewrite parse_int_in_range by (unfold Pillow.INT_MIN; lia).
    destruct (Z.ltb_spec tw 1); [lia|]. rewrite Hfit.
    eexists. split; [reflexivity|].
    unfold len. rewrite resample_line_length. lia.
Qed.





(** ** Colour mapping *)

Lemma index_row_uint8 (P : platform) (v : Z) :
  is_uint8 v -> index_row (Image.COLORMAP_LUT P) v = Ok (lut_at P v).
Proof.
  intros Hv. unfold index_row, len, lut_at, is_uint8 in *.
  rewrite COLORMAP_LUT_length. cbv zeta.
  destruct (Z.ltb_spec v 0); [lia|].
  destruct (Z.leb_spec 0 v); [|lia].
  destruct (Z.ltb_spec v (Z.of_nat 256)); [reflexivity | lia].
Qed.

Lemma index_rows_uint8 (P : platform) (idx : list Z) :
  Forall is_uint8 idx ->
  index_rows (Image.COLORMAP_LUT P) idx = Ok (map (lut_at P) idx).
Proof.
  induction 1 as [| v idx Hv _ IH]; [reflexivity|].
  cbn [index_rows map]. rewrite (index_row_uint8 P v Hv). cbn [bind].
  rewrite IH. reflexivity.
Qed.






(** ** The row pipeline *)

Lemma to_grayscale_length (P : platform) (row_data : list float64) :
  len (Image.to_grayscale P row_data) = len row_data.
Proof. unfold len, Image.to_grayscale. rewrite length_map. reflexivity. Qed.

Lemma to_grayscale_range (P : platform) (row_data : list float64) :
  Forall is_uint8 (Image.to_grayscale P row_data).
Proof.
  unfold Image.to_grayscale. apply Forall_forall. intros v Hv.
  apply in_map_iff in Hv. destruct Hv as [x [<- _]].
  apply astype_uint8_range.
Qed.

(** What a successful call went through. *)
Lemma process_row_to_png_ok (P : platform) (row_data : list float64)
    (source_width target_width : Z) (w w' : world) (out : list byte * Z * Z) :
  Image.process_row_to_png P row_data source_width target_width w = (Ok out, w') ->
  len row_data = source_width
  /\ exists resized rgb png,
       Image.resize_grayscale_row P (Image.to_grayscale P row_data) target_width
       = Ok resized
       /\ Image.apply_colormap P (reshape_1_m1 resized) = Ok rgb
       /\ png_save P rgb = Ok png
       /\ out = (png, target_width, 1).
Proof.
  unfold Image.process_row_to_png. cbv zeta.
  rewrite to_grayscale_length.
  destruct (Z.eqb_spec (len row_data) source_width) as [E | E];
    cbn [negb]; [|discriminate].
  unfold mbind, lift, raise, ret, Image.encode_to_png, debug, mbind, lift.
  destruct (Image.resize_grayscale_row P (Image.to_grayscale P row_data)
              target_width) as [resized | e] eqn:Hres; [|discriminate].
  destruct (Image.apply_colormap P (reshape_1_m1 resized)) as [rgb | e] eqn:Hrgb;
    [|discriminate].
  destruct (png_save P rgb) as [png | e] eqn:Hpng; [|discriminate].
  intros [= <- _]. split; [exact E|].
  exists resized, rgb, png. repeat split; try reflexivity; assumption.
Qed.

(** C1: every raw sample is clamped with saturation and cut to its integer
    part before anything else happens: the clamped row has the length of
    the input, each of its samples is a byte, 0 for a raw value below 0,
    255 for a raw value above 255, the integer part otherwise; whenever
    the pipeline produces an image, the row handed to the colour mapping
    is the resized clamped row and all its samples are bytes; and the raw
    values -10 and 300 become 0 and 255. *)
Theorem clamp_before_resample (P : platform) (row_data : list float64) :
  length (Image.to_grayscale P row_data) = length row_data
  /\ (forall i x,
        nth_error row_data i = Some x ->
        exists v,
          nth_error (Image.to_grayscale P row_data) i = Some v
          /\ is_uint8 v
          /\ (Float64.ltb x (Float64.of_Z 0) = true -> v = 0)
          /\ (Float64.gtb x (Float64.of_Z 255) = true -> v = 255)
          /\ (Float64.is_nan x = false ->
              Float64.ltb x (Float64.of_Z 0) = false ->
              Float64.gtb x (Float64.of_Z 255) = false ->
              Float64.trunc_Z x = Some v))
  /\ (forall target_width resized,
        Image.resize_grayscale_row P (Image.to_grayscale P row_data) target_width
        = Ok resized ->
        Forall is_uint8 resized
        /\ exists rgb, Image.apply_colormap P (reshape_1_m1 resized) = Ok rgb)
  /\ (forall source_width target_width w w' out,
        Image.process_row_to_png P row_data source_width target_width w
        = (Ok out, w') ->
        exists resized rgb,
          Image.resize_grayscale_row P (Image.to_grayscale P row_data)
            target_width = Ok resized
          /\ Forall is_uint8 resized
          /\ Image.apply_colormap P (reshape_1_m1 resized) = Ok rgb
          /\ png_save P rgb = Ok (fst (fst out)))
  /\ Image.to_grayscale P [Float64.of_Z (-10); Float64.of_Z 300] = [0; 255].
Proof.
  assert (Hfed : forall target_width resized,
             Image.resize_grayscale_row P (Image.to_grayscale P row_data)
               target_width = Ok resized ->
             Forall is_uint8 resized).
  { intros tw resized Hres.
    eapply resize_grayscale_row_range; [apply to_grayscale_range | exact Hres]. }
  split; [apply length_map|]. split; [|split; [|split]].
  - intros i x Hi. exists (to_byte P x). split.
    + unfold Image.to_grayscale. rewrite nth_error_map, Hi. reflexivity.
    + apply to_byte_saturates.
  - intros tw resized Hres. split; [eapply Hfed, Hres|].
    unfold Image.apply_colormap, take_rows. cbn [reshape_1_m1 data shape].
    rewrite index_rows_uint8 by (eapply Hfed, Hres).
    cbn [bind]. eexists. reflexivity.
  - intros sw tw w w' out Hrun.
    apply process_row_to_png_ok in Hrun.
    destruct Hrun as [_ [resized [rgb [png [Hres [Hrgb [Hpng ->]]]]]]].
    exists resized, rgb. repeat split; try assumption.
    eapply Hfed, Hres.
  - vm_compute. reflexivity.
Qed.

Lemma clamp_before_resample_witness :
  (exists v,
      nth_error (Image.to_grayscale sample_platform
                   [Float64.of_Z (-10); Float64.of_Z 300]) 1 = Some v
      /\ is_uint8 v /\ v = 255)
  /\ Forall is_uint8 [0; 0; 0].
Proof.
  pose proof (clamp_before_resample sample_platform
                [Float64.of_Z (-10); Float64.of_Z 300]) as [_ [Hs [Hfed _]]].
  split.
  - destruct (Hs 1%nat (Float64.of_Z 300) eq_refl) as [v [Hv [Hb [_ [Hhi _]]]]].
    exists v. split; [exact Hv|]. split; [exact Hb|].
    apply Hhi. vm_compute. reflexivity.
  - apply (Hfed 3 [0; 0; 0]). vm_compute. reflexivity.
Defined.

Lemma process_row_length_error (P : platform) (row_data : list float64)
    (source_width target_width : Z) (w : world) :
  len row_data <> source_width ->
  Image.process_row_to_png P row_data source_width target_width w
  = (Raise (ValueError (length_message source_width (len row_data))), w).
Proof.
  intros Hlen.
  unfold Image.process_row_to_png. cbv zeta. rewrite to_grayscale_length.
  destruct (Z.eqb_spec (len row_data) source_width) as [E | E];
    [contradiction|].
  reflexivity.
Qed.

(** C2: a row whose length differs from [source_width] is rejected by a
    [ValueError] that names the expected and the actual length; nothing
    else happens: no image bytes, nothing resized or logged, so the row is
    neither cut nor padded.  A row of 199 samples against a width of 200
    reports 200 and 199. *)
Theorem length_mismatch_rejected (P : platform) (row_data : list float64)
    (source_width target_width : Z) (w : world) :
  len row_data <> source_width ->
  Image.process_row_to_png P row_data source_width target_width w
  = (Raise (ValueError (length_message source_width (len row_data))), w)
  /\ length_message 200 199 = "Expected 200 pixel values, got 199"%string.
Proof.
  intros Hlen. split; [|vm_compute; reflexivity].
  apply process_row_length_error, Hlen.
Qed.

Lemma length_mismatch_rejected_witness :
  Image.process_row_to_png sample_platform (repeat (Float64.of_Z 7) 199) 200 150 []
  = (Raise (ValueError (length_message 200
                          (len (repeat (Float64.of_Z 7) 199)))), [])
  /\ length_message 200 199 = "Expected 200 pixel values, got 199"%string.
Proof.
  apply (length_mismatch_rejected sample_platform
           (repeat (Float64.of_Z 7) 199) 200 150 []).
  vm_compute. discriminate.
Defined.

(** * Further properties of the pipeline *)

(** ** Outcomes of [process_row_to_png] *)


Lemma apply_colormap_bytes (P : platform) (resized : list Z) :
  Forall is_uint8 resized ->
  Image.apply_colormap P (reshape_1_m1 resized) = Ok (colorized P resized).
Proof.
  intros Hb. unfold Image.apply_colormap, take_rows, reshape_1_m1, colorized.
  cbn [data shape]. rewrite (index_rows_uint8 P resized Hb). reflexivity.
Qed.


(** The complete case analysis of one call. *)
Lemma process_row_to_png_outcome (P : platform) (row_data : list float64)
    (source_width target_width : Z) (w : world) :
  Image.process_row_to_png P row_data source_width target_width w
  = if len row_data =? source_width then
      match Image.resize_grayscale_row P (Image.to_grayscale P row_data)
              target_width with
      | Raise e => (Raise e, w)
      | Ok resized =>
          match png_save P (colorized P resized) with
          | Ok png => (Ok (png, target_width, 1), w ++ [encoded_record])
          | Raise e => (Raise e, w)
          end
      end
    else (Raise (ValueError (length_message source_width (len row_data))), w).
Proof.
  destruct (Z.eqb_spec (len row_data) source_width) as [E | E];
    [|apply process_row_length_error, E].
  unfold Image.process_row_to_png. cbv zeta. rewrite to_grayscale_length.
  replace (negb (len row_data =? source_width)) with false
    by (symmetry; apply negb_false_iff, Z.eqb_eq, E).
  unfold mbind at 1. unfold lift at 1.
  destruct (Image.resize_grayscale_row P (Image.to_grayscale P row_data)
              target_width) as [resized | e] eqn:Hres; [|reflexivity].
  unfold mbind at 1. unfold lift at 1.
  rewrite apply_colormap_bytes
    by (eapply resize_grayscale_row_range; [apply to_grayscale_range | exact Hres]).
  unfold mbind, Image.encode_to_png, mbind, lift, debug, ret.
  destruct (png_save P (colorized P resized)); reflexivity.
Qed.

(** ** Invalid widths *)

(** C9, counterexample: there is no check of the widths apart from what
    each call does with its row.  With [target_width = 0] a row of 200
    samples is refused by the resize step and a row of 199 samples by the
    length check, with another error; with a negative [source_width] the
    error names the length of the row at hand; and [source_width = 0] is
    not refused at all: the empty row is resized and encoded. *)
Lemma invalid_width_rejected_per_row :
  fst (Image.process_row_to_png sample_platform
         (repeat (Float64.of_Z 0) 200) 200 0 [])
  = Raise (ValueError "height and width must be > 0")
  /\ fst (Image.process_row_to_png sample_platform
            (repeat (Float64.of_Z 0) 199) 200 0 [])
     = Raise (ValueError "Expected 200 pixel values, got 199")
  /\ Image.process_row_to_png sample_platform [] 0 3 []
     = (Ok ([], 3, 1), [encoded_record])
  /\ ~ rejected_at_construction sample_platform 200 0
  /\ ~ rejected_at_construction sample_platform (-1) 150
  /\ ~ rejected_at_construction sample_platform 0 3.
Proof.
  split; [vm_compute; reflexivity|]. split; [vm_compute; reflexivity|].
  split; [vm_compute; reflexivity|].
  split; [|split]; intros [e He].
  - pose proof (He (repeat (Float64.of_Z 0) 200) []) as H1.
    pose proof (He (repeat (Float64.of_Z 0) 199) []) as H2.
    vm_compute in H1, H2. rewrite <- H1 in H2. discriminate H2.
  - pose proof (He [] []) as H1.
    pose proof (He [Float64.of_Z 0] []) as H2.
    vm_compute in H1, H2. rewrite <- H1 in H2. discriminate H2.
  - pose proof (He [] []) as H1. vm_compute in H1. discriminate H1.
Qed.

(** C9, amended: a width that is zero or negative is dealt with per call,
    inside [process_row_to_png], and never by a configuration error.
    A row whose length differs from [source_width] raises the length
    [ValueError]; this is every row when [source_width] is negative.  A
    row of the right length with a [target_width] below one is refused by
    the resize step before anything is resampled ([ValueError], or
    [OverflowError] below the range of a C int), unless the row is empty
    and [target_width] is zero.  [source_width = 0] is not refused: the
    empty row is resized to any accepted [target_width] and handed to the
    encoder. *)
Theorem invalid_width_per_row (P : platform) (row_data : list float64)
    (source_width target_width : Z) :
  source_width <= 0 \/ target_width <= 0 ->
  (len row_data <> source_width ->
   raises P row_data source_width target_width
     (ValueError (length_message source_width (len row_data))))
  /\ (source_width < 0 -> len row_data <> source_width)
  /\ (len row_data = source_width ->
      target_width <= 0 -> target_width <> len row_data ->
      raises P row_data source_width target_width
        (width_rejection target_width))
  /\ (len row_data = source_width -> source_width = 0 ->
      target_width = 0
      \/ (0 < target_width /\ Pillow.coefficients_fit 0 target_width = true) ->
      exists resized,
        len resized = target_width
        /\ forall w,
             Image.process_row_to_png P row_data source_width target_width w
             = match png_save P (colorized P resized) with
               | Ok png => (Ok (png, target_width, 1), w ++ [encoded_record])
               | Raise e => (Raise e, w)
               end).
Proof.
  intros _. split; [|split; [|split]].
  - intros Hlen w. apply process_row_length_error, Hlen.
  - unfold len. lia.
  - intros Hlen Htw Hne w. rewrite process_row_to_png_outcome.
    replace (len row_data =? source_width) with true
      by (symmetry; apply Z.eqb_eq, Hlen).
    rewrite resize_grayscale_row_cases, to_grayscale_length.
    destruct (Z.eqb_spec target_width (len row_data)); [contradiction|].
    unfold width_rejection.
    destruct (Pillow.parse_int target_width); [|reflexivity].
    destruct (Z.ltb_spec target_width 1); [reflexivity | lia].
  - intros Hlen Hsw Hacc.
    destruct (resize_grayscale_row_accepted P (Image.to_grayscale P row_data)
                target_width) as [resized [Hres Hl]].
    { rewrite to_grayscale_length, Hlen, Hsw. tauto. }
    exists resized. split; [exact Hl|]. intros w.
    rewrite process_row_to_png_outcome.
    replace (len row_data =? source_width) with true
      by (symmetry; apply Z.eqb_eq, Hlen).
    rewrite Hres. reflexivity.
Qed.

Lemma invalid_width_per_row_witness :
  raises sample_platform [Float64.of_Z 5] (-3) 150
    (ValueError (length_message (-3) 1))
  /\ raises sample_platform [Float64.of_Z 5; Float64.of_Z 6] 2 0
       (ValueError "height and width must be > 0")
  /\ raises sample_platform [Float64.of_Z 5; Float64.of_Z 6] 2 (- 2 ^ 31 - 1)
       (OverflowError "signed integer is less than minimum")
  /\ exists resized,
       len resized = 3
       /\ forall w,
            Image.process_row_to_png sample_platform [] 0 3 w
            = match png_save sample_platform
                      (colorized sample_platform resized) with
              | Ok png => (Ok (png, 3, 1), w ++ [encoded_record])
              | Raise e => (Raise e, w)
              end.
Proof.
  split; [|split; [|split]].
  - apply (proj1 (invalid_width_per_row sample_platform
                    [Float64.of_Z 5] (-3) 150 ltac:(lia))).
    vm_compute. discriminate.
  - apply (proj1 (proj2 (proj2 (invalid_width_per_row sample_platform
                    [Float64.of_Z 5; Float64.of_Z 6] 2 0 ltac:(lia)))));
      [reflexivity | lia | vm_compute; discriminate].
  - apply (proj1 (proj2 (proj2 (invalid_width_per_row sample_platform
                    [Float64.of_Z 5; Float64.of_Z 6] 2 (- 2 ^ 31 - 1)
                    ltac:(lia)))));
      [reflexivity | lia | vm_compute; discriminate].
  - apply (proj2 (proj2 (proj2 (invalid_width_per_row sample_platform
                    [] 0 3 ltac:(lia)))));
      [reflexivity | reflexivity |].
    right. split; [lia | vm_compute; reflexivity].
Defined.





(** X3: what a call leaves in the log.  A call that returns has logged
    exactly one record, after everything that was there; a call that
    raises, whatever the reason, has logged nothing. *)
Theorem process_row_log_effect (P : platform) (row_data : list float64)
    (source_width target_width : Z) (w : world) :
  match Image.process_row_to_png P row_data source_width target_width w with
  | (Ok _, w') => w' = w ++ [encoded_record]
  | (Raise _, w') => w' = w
  end.
Proof.
  rewrite process_row_to_png_outcome.
  destruct (len row_data =? source_width); [|reflexivity].
  destruct (Image.resize_grayscale_row P (Image.to_grayscale P row_data)
              target_width) as [resized | e]; [|reflexivity].
  destruct (png_save P (colorized P resized)); reflexivity.
Qed.


(** ** Clamping, continued *)

Lemma to_byte_of_Z (P : platform) (k : Z) :
  is_uint8 k -> to_byte P (Float64.of_Z k) = k.
Proof.
  intros Hk. apply Z.eqb_eq. revert k Hk. unfold is_uint8.
  apply Zinterval_forallb. vm_compute. reflexivity.
Qed.

(** X5: a sample that already is an integer between 0 and 255 passes
    through the clamping unchanged. *)
Theorem to_byte_of_byte (P : platform) (k : Z) :
  is_uint8 k -> to_byte P (Float64.of_Z k) = k.
Proof. apply to_byte_of_Z. Qed.

Lemma to_byte_of_byte_witness : to_byte sample_platform (Float64.of_Z 200) = 200.
Proof.
  apply (to_byte_of_byte sample_platform 200). unfold is_uint8. lia.
Defined.

Lemma pow2_pos (k : Z) : 0 <= k -> 0 < 2 ^ k.
Proof. intros. apply Z.pow_pos_nonneg; lia. Qed.

(** The clamped byte of a finite value is its floor, saturated. *)
Lemma Some_eq {A} (a b : A) : Some a = Some b -> a = b.
Proof. intros [= H]. exact H. Qed.

Lemma to_byte_finite (P : platform) (s : bool) (m : positive) (e : Z) :
  exists z, Float64.floor_Z (S754_finite s m e) = Some z
            /\ to_byte P (S754_finite s m e) = saturate z.
Proof.
  eexists. split; [reflexivity|].
  destruct (to_byte_saturates P (S754_finite s m e)) as [Hb [Hlo [Hhi Hmid]]].
  unfold Float64.ltb, Float64.gtb in Hlo, Hhi, Hmid.
  rewrite compare_finite_0 in Hlo, Hmid.
  unfold saturate. destruct s.
  - (* negative: the floor is negative *)
    rewrite Hlo by reflexivity. cbn [Float64.Fnum].
    assert (Hneg : (if 0 <=? e then Z.neg m * 2 ^ e else Z.neg m / 2 ^ (- e)) < 0).
    { destruct (Z.leb_spec 0 e).
      - apply Z.mul_neg_pos; [reflexivity | apply pow2_pos; lia].
      - apply Z.div_lt_upper_bound; [apply pow2_pos; lia|].
        rewrite Z.mul_0_r. reflexivity. }
    lia.
  - rewrite compare_finite_255 in Hhi, Hmid.
    rewrite trunc_Z_pos in Hmid. cbn [Float64.Fnum Float64.is_nan] in *.
    destruct (Z.leb_spec 0 e) as [He | He].
    + pose proof (pow2_pos e He) as Hp.
      destruct (Z.compare_spec (Z.pos m * 2 ^ e) 255) as [E | E | E].
      * specialize (Hmid eq_refl eq_refl eq_refl). apply Some_eq in Hmid. lia.
      * specialize (Hmid eq_refl eq_refl eq_refl). apply Some_eq in Hmid. nia.
      * rewrite Hhi by reflexivity. lia.
    + assert (Hp : 0 < 2 ^ (- e)) by (apply pow2_pos; lia).
      assert (H0 : 0 <= Z.pos m / 2 ^ (- e)) by (apply Z.div_pos; lia).
      destruct (Z.compare_spec (Z.pos m) (255 * 2 ^ (- e))) as [E | E | E].
      * specialize (Hmid eq_refl eq_refl eq_refl). apply Some_eq in Hmid.
        rewrite E, Z.div_mul in * by lia. lia.
      * specialize (Hmid eq_refl eq_refl eq_refl). apply Some_eq in Hmid.
        assert (Z.pos m / 2 ^ (- e) < 255) by (apply Z.div_lt_upper_bound; lia).
        lia.
      * rewrite Hhi by reflexivity.
        assert (255 <= Z.pos m / 2 ^ (- e))
          by (apply Z.div_le_lower_bound; lia).
        lia.
Qed.

(** The floor read at any exponent not above the value's own. *)
Lemma floor_Z_scaled (x : float64) (E z : Z) :
  Float64.floor_Z x = Some z ->
  E <= Float64.Fexp x ->
  z = if 0 <=? E then Float64.Fnum x * 2 ^ (Float64.Fexp x - E) * 2 ^ E
      else Float64.Fnum x * 2 ^ (Float64.Fexp x - E) / 2 ^ (- E).
Proof.
  destruct x as [s | s | | s m e]; try discriminate.
  - intros [= <-] _. cbn [Float64.Fnum]. destruct (0 <=? E); reflexivity.
  - unfold Float64.floor_Z. cbn [Float64.Fexp].
    set (n := Float64.Fnum (S754_finite s m e)).
    intros [= <-] HE.
    destruct (Z.leb_spec 0 e) as [He | He]; destruct (Z.leb_spec 0 E) as [HE0 | HE0].
    + rewrite <- Z.mul_assoc, <- Z.pow_add_r by lia. do 2 f_equal. lia.
    + replace (2 ^ (e - E)) with (2 ^ e * 2 ^ (- E))
        by (rewrite <- Z.pow_add_r by lia; f_equal; lia).
      rewrite Z.mul_assoc, Z.div_mul; [reflexivity|].
      pose proof (pow2_pos (- E)). lia.
    + lia.
    + replace (2 ^ (- E)) with (2 ^ (- e) * 2 ^ (e - E))
        by (rewrite <- Z.pow_add_r by lia; f_equal; lia).
      rewrite Z.div_mul_cancel_r; [reflexivity | |].
      * pose proof (pow2_pos (- e)). lia.
      * pose proof (pow2_pos (e - E)). lia.
Qed.

(** The floor does not reverse the order of two finite values. *)
Lemma floor_Z_monotone (x y : float64) (zx zy : Z) :
  Float64.floor_Z x = Some zx ->
  Float64.floor_Z y = Some zy ->
  float_le x y ->
  zx <= zy.
Proof.
  intros Hx Hy Hle.
  set (E := Z.min (Float64.Fexp x) (Float64.Fexp y)).
  assert (Hcmp : Float64.Fnum x * 2 ^ (Float64.Fexp x - E)
                 <= Float64.Fnum y * 2 ^ (Float64.Fexp y - E)).
  { subst E. unfold float_le in Hle.
    destruct x as [sx | sx | | sx mx ex]; try discriminate Hx;
      destruct y as [sy | sy | | sy my ey]; try discriminate Hy;
      unfold Float64.compare in Hle; cbn [Float64.Fnum Float64.Fexp] in *;
      (destruct Hle as [Hle | Hle]; apply Some_eq in Hle;
       [apply -> Z.compare_lt_iff in Hle | apply Z.compare_eq in Hle]; lia). }
  rewrite (floor_Z_scaled x E zx Hx) by (unfold E; lia).
  rewrite (floor_Z_scaled y E zy Hy) by (unfold E; lia).
  destruct (Z.leb_spec 0 E) as [HE | HE].
  - apply Z.mul_le_mono_nonneg_r; [|exact Hcmp].
    pose proof (pow2_pos E HE). lia.
  - apply Z.div_le_mono; [|exact Hcmp]. apply pow2_pos. lia.
Qed.

Lemma saturate_monotone (a b : Z) : a <= b -> saturate a <= saturate b.
Proof. unfold saturate. lia. Qed.

Lemma saturate_range (a : Z) : 0 <= saturate a <= 255.
Proof. unfold saturate. lia. Qed.

(** The clamped byte of any number (not a NaN): the saturated floor for a
    finite value, the matching end of the range for an infinity. *)
Lemma to_byte_cases (P : platform) (x : float64) :
  match x with
  | S754_nan => True
  | S754_infinity s => to_byte P x = if s then 0 else 255
  | _ => exists z, Float64.floor_Z x = Some z /\ to_byte P x = saturate z
  end.
Proof.
  destruct x as [s | s | | s m e].
  - exists 0. split; [reflexivity|]. destruct s; vm_compute; reflexivity.
  - destruct s; vm_compute; reflexivity.
  - exact I.
  - apply to_byte_finite.
Qed.

(** X6: clamping preserves the order of the samples: if [x <= y] as
    float64 numbers then the byte of [x] is not above the byte of [y]. *)
Theorem to_byte_monotone (P : platform) (x y : float64) :
  float_le x y -> to_byte P x <= to_byte P y.
Proof.
  intros Hle.
  pose proof (to_byte_cases P x) as Hx. pose proof (to_byte_cases P y) as Hy.
  pose proof (proj1 (to_byte_saturates P x)) as Hbx.
  pose proof (proj1 (to_byte_saturates P y)) as Hby.
  unfold is_uint8 in Hbx, Hby.
  destruct x as [sx | sx | | sx mx ex].
  - destruct y as [sy | sy | | sy my ey].
    + destruct Hx as [zx [Hzx ->]], Hy as [zy [Hzy ->]].
      apply saturate_monotone. eapply floor_Z_monotone; eauto.
    + destruct sy; [|lia].
      destruct Hle as [H | H]; cbn in H; discriminate H.
    + destruct Hle as [H | H]; cbn in H; destruct sx; discriminate H.
    + destruct Hx as [zx [Hzx ->]], Hy as [zy [Hzy ->]].
      apply saturate_monotone. eapply floor_Z_monotone; eauto.
  - destruct sx; [lia|].
    destruct y as [sy | sy | | sy my ey];
      try (destruct Hle as [H | H]; cbn in H; discriminate H).
    destruct sy; [|lia].
    destruct Hle as [H | H]; cbn in H; discriminate H.
  - destruct Hle as [H | H]; cbn in H; discriminate H.
  - destruct y as [sy | sy | | sy my ey].
    + destruct Hx as [zx [Hzx ->]], Hy as [zy [Hzy ->]].
      apply saturate_monotone. eapply floor_Z_monotone; eauto.
    + destruct sy; [|lia].
      destruct Hle as [H | H]; cbn in H; discriminate H.
    + destruct Hle as [H | H]; cbn in H; destruct sx; discriminate H.
    + destruct Hx as [zx [Hzx ->]], Hy as [zy [Hzy ->]].
      apply saturate_monotone. eapply floor_Z_monotone; eauto.
Qed.

Lemma to_byte_monotone_witness :
  to_byte sample_platform (Float64.of_Z (-10))
  <= to_byte sample_platform (Float64.of_Z 300).
Proof.
  apply (to_byte_monotone sample_platform (Float64.of_Z (-10)) (Float64.of_Z 300)).
  left. vm_compute. reflexivity.
Defined.

(** ** Colour mapping, continued *)

Lemma rgb_eqb_eq (a b : rgb) : rgb_eqb a b = true <-> a = b.
Proof.
  destruct a as [[ar ag] ab], b as [[br bg] bb]. unfold rgb_eqb. cbn [channel].
  rewrite !andb_true_iff, !Z.eqb_eq. split.
  - intros [[-> ->] ->]. reflexivity.
  - intros [= -> -> ->]. auto.
Qed.

Lemma table_injective_checked :
  forallb injective_row (Zinterval 0 255) = true.
Proof. vm_compute. reflexivity. Qed.

Lemma table_entries_distinct (a b : Z) :
  is_uint8 a -> is_uint8 b -> distinct_entries a b = true.
Proof.
  intros Ha Hb.
  pose proof (Zinterval_forallb injective_row 0 255 table_injective_checked a Ha)
    as Hrow.
  unfold injective_row in Hrow.
  exact (Zinterval_forallb (distinct_entries a) 0 255 Hrow b Hb).
Qed.

Lemma lut_at_injective (P : platform) (a b : Z) :
  is_uint8 a -> is_uint8 b -> lut_at P a = lut_at P b -> a = b.
Proof.
  intros Ha Hb. unfold lut_at. rewrite COLORMAP_LUT_table. intros Heq.
  pose proof (table_entries_distinct a b Ha Hb) as Hab.
  unfold distinct_entries in Hab.
  apply rgb_eqb_eq in Heq. rewrite Heq in Hab. apply Z.eqb_eq, Hab.
Qed.

Lemma flat_map_rgb_values_injective (l1 l2 : list rgb) :
  flat_map rgb_values l1 = flat_map rgb_values l2 -> l1 = l2.
Proof.
  revert l2. induction l1 as [| [[r g] b] l1 IH]; intros [| [[r' g'] b'] l2];
    cbn; try discriminate; [reflexivity|].
  intros [= -> -> -> Hrest]. f_equal. apply IH, Hrest.
Qed.

Lemma cons_eq {A} (a b : A) (l1 l2 : list A) :
  a :: l1 = b :: l2 -> a = b /\ l1 = l2.
Proof. intros [= -> ->]. split; reflexivity. Qed.

Lemma map_lut_at_injective (P : platform) (d1 d2 : list Z) :
  Forall is_uint8 d1 -> Forall is_uint8 d2 ->
  map (lut_at P) d1 = map (lut_at P) d2 -> d1 = d2.
Proof.
  intros H1. revert d2. induction H1 as [| a d1 Ha _ IH]; intros d2 H2 Heq.
  - destruct d2; [reflexivity | discriminate].
  - destruct H2 as [| b d2 Hb H2]; [discriminate|].
    cbn [map] in Heq. apply cons_eq in Heq. destruct Heq as [Hab Hrest]. f_equal.
    + apply (lut_at_injective P); assumption.
    + apply IH; assumption.
Qed.

(** X7: the colour mapping loses nothing: two [uint8] arrays that are
    mapped to the same RGB array are the same array (same shape, same
    values), because no two intensities share a colour of the table. *)
Theorem apply_colormap_injective (P : platform) (g1 g2 : ndarray) :
  Forall is_uint8 (data g1) ->
  Forall is_uint8 (data g2) ->
  Image.apply_colormap P g1 = Image.apply_colormap P g2 ->
  g1 = g2.
Proof.
  intros H1 H2. unfold Image.apply_colormap, take_rows.
  rewrite (index_rows_uint8 P _ H1), (index_rows_uint8 P _ H2). cbn [bind].
  intros [= Hshape Hdata].
  apply app_inv_tail in Hshape.
  apply flat_map_rgb_values_injective, map_lut_at_injective in Hdata;
    try assumption.
  destruct g1, g2. cbn in *. subst. reflexivity.
Qed.

Lemma apply_colormap_injective_witness :
  {| shape := [2%nat]; data := [7; 250] |}
  = {| shape := [2%nat]; data := [7; 250] |}.
Proof.
  apply (apply_colormap_injective sample_platform).
  - cbn. unfold is_uint8. repeat constructor; lia.
  - cbn. unfold is_uint8. repeat constructor; lia.
  - reflexivity.
Defined.

Lemma index_row_valid (P : platform) (v : Z) :
  valid_index v -> exists px, index_row (Image.COLORMAP_LUT P) v = Ok px.
Proof.
  intros Hv. unfold index_row, len, valid_index in *.
  rewrite COLORMAP_LUT_length. cbv zeta.
  destruct (Z.ltb_spec v 0).
  - destruct (Z.leb_spec 0 (v + Z.of_nat 256)); [|lia].
    destruct (Z.ltb_spec (v + Z.of_nat 256) (Z.of_nat 256)); [|lia].
    eexists. reflexivity.
  - destruct (Z.leb_spec 0 v); [|lia].
    destruct (Z.ltb_spec v (Z.of_nat 256)); [|lia].
    eexists. reflexivity.
Qed.

Lemma index_row_invalid (P : platform) (v : Z) :
  ~ valid_index v ->
  index_row (Image.COLORMAP_LUT P) v = Raise (IndexError (index_message v)).
Proof.
  intros Hv. unfold index_row, len, valid_index, index_message in *.
  rewrite COLORMAP_LUT_length. cbv zeta.
  destruct (Z.ltb_spec v 0).
  - destruct (Z.leb_spec 0 (v + Z.of_nat 256)); [|reflexivity].
    destruct (Z.ltb_spec (v + Z.of_nat 256) (Z.of_nat 256)); [lia | reflexivity].
  - destruct (Z.leb_spec 0 v); [|lia].
    destruct (Z.ltb_spec v (Z.of_nat 256)); [lia | reflexivity].
Qed.

Lemma valid_index_dec (v : Z) : {valid_index v} + {~ valid_index v}.
Proof.
  unfold valid_index.
  destruct (Z_le_dec (-256) v); [|right; lia].
  destruct (Z_le_dec v 255); [left; lia | right; lia].
Qed.

Lemma index_rows_outcome (P : platform) (idx : list Z) :
  (Forall valid_index idx /\ exists rows, index_rows (Image.COLORMAP_LUT P) idx = Ok rows)
  \/ (exists v, In v idx /\ ~ valid_index v
                /\ index_rows (Image.COLORMAP_LUT P) idx
                   = Raise (IndexError (index_message v))).
Proof.
  induction idx as [| i idx IH].
  - left. split; [constructor | exists []; reflexivity].
  - cbn [index_rows]. destruct (valid_index_dec i) as [Hi | Hi].
    + destruct (index_row_valid P i Hi) as [px ->]. cbn [bind].
      destruct IH as [[Hall [rows ->]] | [v [Hin [Hv ->]]]].
      * left. split; [constructor; assumption | eexists; reflexivity].
      * right. exists v. split; [right; exact Hin | split; [exact Hv | reflexivity]].
    + right. exists i. rewrite (index_row_invalid P i Hi).
      split; [left; reflexivity | split; [exact Hi | reflexivity]].
Qed.

(** X8: the colour mapping does not clamp.  On an integer array it
    succeeds exactly when every element is an index NumPy accepts for a
    256-row table (-256..255); otherwise it raises the [IndexError] that
    names an offending element of the array. *)
Theorem apply_colormap_index_error (P : platform) (grayscale : ndarray) :
  ((exists out, Image.apply_colormap P grayscale = Ok out)
   <-> Forall valid_index (data grayscale))
  /\ (forall e, Image.apply_colormap P grayscale = Raise e ->
        exists v, In v (data grayscale) /\ ~ valid_index v
                  /\ e = IndexError (index_message v)).
Proof.
  unfold Image.apply_colormap, take_rows.
  destruct (index_rows_outcome P (data grayscale))
    as [[Hall [rows Hrows]] | [v [Hin [Hv Hraise]]]].
  - rewrite Hrows. cbn [bind]. split.
    + split; [intros _; exact Hall | intros _; eexists; reflexivity].
    + intros e He. discriminate He.
  - rewrite Hraise. cbn [bind]. split.
    + split.
      * intros [out Hout]. discriminate Hout.
      * intros Hall. rewrite Forall_forall in Hall. exfalso. apply Hv, Hall, Hin.
    + intros e [= <-]. exists v. repeat split; assumption.
Qed.

Lemma apply_colormap_index_error_witness :
  exists v, In v [3; 256] /\ ~ valid_index v
            /\ IndexError (index_message 256) = IndexError (index_message v).
Proof.
  apply (proj2 (apply_colormap_index_error sample_platform
                  {| shape := [2%nat]; data := [3; 256] |})).
  vm_compute. reflexivity.
Defined.

(** ** The table built from any valid stops *)

Lemma float_eqb_eq (x y : float64) : float_eqb x y = true -> x = y.
Proof.
  destruct x, y; cbn; try discriminate.
  - intros H. apply Bool.eqb_prop in H. subst. reflexivity.
  - rewrite !andb_true_iff, Pos.eqb_eq, Z.eqb_eq.
    intros [[H -> ] ->]. apply Bool.eqb_prop in H. subst. reflexivity.
Qed.

Lemma difference_exact_checked :
  forallb (fun a => forallb (difference_exact a) (Zinterval 0 255))
          (Zinterval 0 255) = true.
Proof. vm_compute. reflexivity. Qed.

Lemma sub_of_Z (a b : Z) :
  is_uint8 a -> is_uint8 b ->
  Float64.sub (Float64.of_Z b) (Float64.of_Z a) = Float64.of_Z (b - a).
Proof.
  intros Ha Hb. apply float_eqb_eq.
  pose proof (Zinterval_forallb _ 0 255 difference_exact_checked a Ha) as Hrow.
  cbv beta in Hrow.
  exact (Zinterval_forallb (difference_exact a) 0 255 Hrow b Hb).
Qed.

Lemma first_term_checked :
  forallb (fun d => forallb (fun n => Float64.is_zero (first_term d n))
                            (Zinterval 1 255))
          (Zinterval (-255) 255) = true.
Proof. vm_cast_no_check (eq_refl true). Qed.

Lemma first_term_zero (d n : Z) :
  -255 <= d <= 255 -> 1 <= n <= 255 -> Float64.is_zero (first_term d n) = true.
Proof.
  intros Hd Hn.
  pose proof (Zinterval_forallb _ (-255) 255 first_term_checked d Hd) as Hrow.
  cbv beta in Hrow.
  exact (Zinterval_forallb (fun n => Float64.is_zero (first_term d n)) 1 255
           Hrow n Hn).
Qed.

Lemma byte_after_zero (cu : float64 -> Z) (z : float64) (k : Z) :
  Float64.is_zero z = true -> is_uint8 k ->
  astype_uint8 cu (floor (Float64.add z (Float64.of_Z k))) = k.
Proof.
  intros Hz Hk. destruct z as [s | | |]; try discriminate Hz.
  apply Z.eqb_eq. revert k Hk. unfold is_uint8.
  apply Zinterval_forallb. destruct s; vm_compute; reflexivity.
Qed.

Lemma byte_of_Z (cu : float64 -> Z) (k : Z) :
  is_uint8 k -> astype_uint8 cu (floor (Float64.of_Z k)) = k.
Proof.
  intros Hk. apply Z.eqb_eq. revert k Hk. unfold is_uint8.
  apply Zinterval_forallb. vm_compute. reflexivity.
Qed.

Lemma update_length {A} (f : A -> A) (xs : list A) :
  forall i, length (update i f xs) = length xs.
Proof.
  induction xs as [| x xs IH]; intros [| i]; cbn; try reflexivity.
  rewrite IH. reflexivity.
Qed.

Lemma update_nth {A} (d : A) (f : A -> A) (xs : list A) :
  forall i j,
    nth j (update i f xs) d
    = if ((j =? i) && (i <? length xs))%nat then f (nth j xs d) else nth j xs d.
Proof.
  induction xs as [| x xs IH]; intros i j.
  - cbn. rewrite andb_false_r. destruct i; reflexivity.
  - destruct i as [| i], j as [| j]; cbn [update nth length]; try reflexivity.
    rewrite IH. reflexivity.
Qed.

Lemma store_column_length (c : nat) (vals : list Z) :
  forall a arr, length (store_column a c vals arr) = length arr.
Proof.
  induction vals as [| v vals IH]; intros a arr; cbn; [reflexivity|].
  rewrite IH, update_length. reflexivity.
Qed.

Lemma store_column_nth (c : nat) (d : rgb) (vals : list Z) :
  forall a arr j,
    (a + length vals <= length arr)%nat ->
    nth j (store_column a c vals arr) d
    = if ((a <=? j) && (j <? a + length vals))%nat
      then set_channel c (nth (j - a) vals 0) (nth j arr d)
      else nth j arr d.
Proof.
  induction vals as [| v vals IH]; intros a arr j Hfit; cbn [store_column length] in *.
  - destruct (Nat.leb_spec a j), (Nat.ltb_spec j (a + 0)); cbn; try reflexivity; lia.
  - rewrite IH by (rewrite update_length; lia). rewrite update_nth.
    destruct (Nat.leb_spec (S a) j), (Nat.ltb_spec j (S a + length vals));
      destruct (Nat.leb_spec a j), (Nat.ltb_spec j (a + S (length vals)));
      destruct (Nat.eqb_spec j a), (Nat.ltb_spec a (length arr));
      cbn [andb]; try lia; try reflexivity.
    all: try (replace (j - a)%nat with (S (j - S a)) by lia; reflexivity).
    all: try (subst j; rewrite Nat.sub_diag; reflexivity).
Qed.

Lemma assign_column_segment (arr : list rgb) (s e : Z) (c : nat) (vals : list Z) :
  length arr = 256%nat ->
  0 <= s -> s <= e -> e <= 255 ->
  len vals = e - s + 1 ->
  assign_column arr s (e + 1) c vals = Ok (store_column (Z.to_nat s) c vals arr).
Proof.
  intros Harr Hs Hse He Hvals.
  unfold assign_column, slice_indices, slice_bound, len in *. rewrite Harr.
  destruct (Z.ltb_spec s 0); [lia|].
  destruct (Z.ltb_spec (e + 1) 0); [lia|].
  rewrite (Z.min_l s) by lia. rewrite (Z.min_l (e + 1)) by lia.
  rewrite Z.max_r by lia.
  destruct (Z.eqb_spec (Z.of_nat (length vals)) (e + 1 - s)); [reflexivity | lia].
Qed.

Lemma channel_set_same (c : nat) (v : Z) (px : rgb) :
  (c < 3)%nat -> channel c (set_channel c v px) = v.
Proof.
  intros Hc. destruct px as [[r g] b].
  destruct c as [|[|[|c]]]; reflexivity.
Qed.

Lemma channel_set_other (c c' : nat) (v : Z) (px : rgb) :
  (c < 3)%nat -> (c' < 3)%nat -> c' <> c ->
  channel c' (set_channel c v px) = channel c' px.
Proof.
  intros Hc Hc' Hne. destruct px as [[r g] b].
  destruct c as [|[|[|c]]], c' as [|[|[|c']]]; try reflexivity; lia.
Qed.

Lemma rgb_ext (a b : rgb) :
  channel 0 a = channel 0 b -> channel 1 a = channel 1 b ->
  channel 2 a = channel 2 b -> a = b.
Proof.
  destruct a as [[ar ag] ab], b as [[br bg] bb]. cbn. congruence.
Qed.

Lemma byte_color_channel (px : rgb) (c : nat) :
  byte_color px -> is_uint8 (channel c px).
Proof.
  intros [H0 [H1 H2]]. destruct px as [[r g] b].
  destruct c as [|[|c]]; assumption.
Qed.

Lemma removelast_length {A} (l : list A) :
  length (removelast l) = (length l - 1)%nat.
Proof.
  induction l as [| y l IH]; [reflexivity|].
  destruct l as [| y' l]; [reflexivity|].
  change (removelast (y :: y' :: l)) with (y :: removelast (y' :: l)).
  cbn [length] in *. rewrite IH. lia.
Qed.

(** The shape of [removelast l ++ [z]] for a list of two elements or more. *)
Lemma overwrite_last {A} (d z : A) (x : A) (l : list A) :
  l <> [] ->
  length (removelast (x :: l) ++ [z]) = S (length l)
  /\ nth 0 (removelast (x :: l) ++ [z]) d = x
  /\ nth (length l) (removelast (x :: l) ++ [z]) d = z.
Proof.
  intros Hl. destruct l as [| y l]; [contradiction|].
  change (removelast (x :: y :: l)) with (x :: removelast (y :: l)).
  pose proof (removelast_length (y :: l)) as Hrl. cbn [length] in Hrl.
  cbn [app length nth]. rewrite length_app, Hrl. cbn [length].
  split; [lia|]. split; [reflexivity|].
  rewrite app_nth2 by lia.
  replace (length l - length (removelast (y :: l)))%nat with 0%nat by lia.
  reflexivity.
Qed.

Lemma nth_map_inside {A B} (f : A -> B) (l : list A) (i : nat) (dB : B) (dA : A) :
  (i < length l)%nat -> nth i (map f l) dB = f (nth i l dA).
Proof.
  revert i. induction l as [| x l IH]; intros [| i] Hi; cbn in *; try lia.
  - reflexivity.
  - apply IH. lia.
Qed.

(** [linspace] with byte end values and at least two samples: the first
    sample converts to [start] and the last one to [stop], whatever the
    rounding of the samples in between. *)
Lemma linspace_uint8_ends (cu : float64 -> Z) (start stop num : Z) :
  is_uint8 start -> is_uint8 stop -> 2 <= num <= 256 ->
  exists vals,
    linspace_uint8 cu start stop num = Ok vals
    /\ length vals = Z.to_nat num
    /\ nth 0 vals 0 = start
    /\ nth (Z.to_nat num - 1) vals 0 = stop.
Proof.
  intros Hstart Hstop Hnum. unfold linspace_uint8, linspace.
  destruct (Z.ltb_spec num 0); [lia|].
  destruct (Z.ltb_spec 0 (num - 1)); [|lia].
  destruct (Z.ltb_spec 1 num); [|lia].
  cbv zeta. cbn [bind]. eexists. split; [reflexivity|].
  rewrite sub_of_Z by assumption.
  assert (Hzero := first_term_zero (stop - start) (num - 1)).
  unfold first_term in Hzero. cbv zeta in Hzero.
  unfold is_uint8 in *. specialize (Hzero ltac:(lia) ltac:(lia)).
  unfold arange.
  destruct (Z.to_nat num) as [| [| k]] eqn:Hk; try lia.
  cbn [seq map].
  change (Float64.of_Z (Z.of_nat 0)) with (Float64.of_Z 0).
  assert (Hlr : length (seq 2 k) = k) by apply length_seq.
  remember (seq 2 k) as rest eqn:Hrest. clear Hrest.
  replace (S (S k) - 1)%nat with (S k) by lia.
  destruct (Float64.is_zero (Float64.div (Float64.of_Z (stop - start))
                               (Float64.of_Z (num - 1)))); cbn [map];
    unfold float64, Float64.t;
    match goal with
    | |- context [removelast (?x :: ?l) ++ [?z]] =>
        destruct (overwrite_last (A:=spec_float) (Float64.of_Z 0) z x l)
          as [Hlen [Hfirst Hlast]];
        [discriminate|]
    end;
    cbn [length] in Hlen, Hlast; rewrite !length_map, Hlr in Hlen, Hlast;
    (split; [rewrite length_map; exact Hlen|]); split.
  - rewrite (nth_map_inside _ _ _ _ (Float64.of_Z 0)) by (apply (Nat.lt_le_trans _ (S (S k)));
        [lia | apply Nat.eq_le_incl; symmetry; exact Hlen]).
    etransitivity;
      [apply (f_equal (fun v => astype_uint8 cu (floor v))); exact Hfirst|]. apply byte_after_zero; [exact Hzero | exact Hstart].
  - rewrite (nth_map_inside _ _ _ _ (Float64.of_Z 0)) by (apply (Nat.lt_le_trans _ (S (S k)));
        [lia | apply Nat.eq_le_incl; symmetry; exact Hlen]).
    etransitivity;
      [apply (f_equal (fun v => astype_uint8 cu (floor v))); exact Hlast|]. apply byte_of_Z. exact Hstop.
  - rewrite (nth_map_inside _ _ _ _ (Float64.of_Z 0)) by (apply (Nat.lt_le_trans _ (S (S k)));
        [lia | apply Nat.eq_le_incl; symmetry; exact Hlen]).
    etransitivity;
      [apply (f_equal (fun v => astype_uint8 cu (floor v))); exact Hfirst|]. apply byte_after_zero; [exact Hzero | exact Hstart].
  - rewrite (nth_map_inside _ _ _ _ (Float64.of_Z 0)) by (apply (Nat.lt_le_trans _ (S (S k)));
        [lia | apply Nat.eq_le_incl; symmetry; exact Hlen]).
    etransitivity;
      [apply (f_equal (fun v => astype_uint8 cu (floor v))); exact Hlast|]. apply byte_of_Z. exact Hstop.
Qed.

(** One channel of one segment: the table keeps its size, the channel
    holds the two stops' values at the two ends, and nothing else moves
    outside the segment or in the other channels. *)
Lemma interpolate_channel_spec (P : platform) (lo hi : Z * rgb)
    (lut : list rgb) (c : nat) :
  (c < 3)%nat ->
  length lut = 256%nat ->
  is_uint8 (fst lo) -> is_uint8 (fst hi) -> fst lo < fst hi ->
  byte_color (snd lo) -> byte_color (snd hi) ->
  exists lut',
    Image.interpolate_channel P lo hi lut c = Ok lut'
    /\ length lut' = 256%nat
    /\ channel c (entry lut' (fst lo)) = channel c (snd lo)
    /\ channel c (entry lut' (fst hi)) = channel c (snd hi)
    /\ (forall j c', 0 <= j -> (c' < 3)%nat ->
          j < fst lo \/ fst hi < j \/ c' <> c ->
          channel c' (entry lut' j) = channel c' (entry lut j)).
Proof.
  destruct lo as [s cs], hi as [e ce]. cbn [fst snd].
  intros Hc Hlut Hs He Hse Hcs Hce. unfold is_uint8 in Hs, He.
  unfold Image.interpolate_channel.
  destruct (linspace_uint8_ends (cast_undefined P)
              (channel c cs) (channel c ce) (e - s + 1))
    as [vals [Hvals [Hlen [Hfirst Hlast]]]];
    [apply byte_color_channel, Hcs | apply byte_color_channel, Hce | lia |].
  rewrite Hvals. cbn [bind].
  rewrite assign_column_segment; try lia;
    [|unfold len; rewrite Hlen; lia].
  eexists. split; [reflexivity|].
  assert (Hfit : (Z.to_nat s + length vals <= length lut)%nat) by lia.
  split; [rewrite store_column_length; exact Hlut|].
  unfold entry. split; [|split].
  - rewrite store_column_nth by exact Hfit.
    destruct (Nat.leb_spec (Z.to_nat s) (Z.to_nat s)); [|lia].
    destruct (Nat.ltb_spec (Z.to_nat s) (Z.to_nat s + length vals)); [|lia].
    cbn [andb]. rewrite channel_set_same by exact Hc.
    rewrite Nat.sub_diag. exact Hfirst.
  - rewrite store_column_nth by exact Hfit.
    destruct (Nat.leb_spec (Z.to_nat s) (Z.to_nat e)); [|lia].
    destruct (Nat.ltb_spec (Z.to_nat e) (Z.to_nat s + length vals)); [|lia].
    cbn [andb]. rewrite channel_set_same by exact Hc.
    replace (Z.to_nat e - Z.to_nat s)%nat with (Z.to_nat (e - s + 1) - 1)%nat
      by lia.
    exact Hlast.
  - intros j c' Hj Hc' Hout. rewrite store_column_nth by exact Hfit.
    destruct (Nat.leb_spec (Z.to_nat s) (Z.to_nat j));
      destruct (Nat.ltb_spec (Z.to_nat j) (Z.to_nat s + length vals));
      cbn [andb]; try reflexivity.
    apply channel_set_other; try assumption.
    destruct Hout as [Hout | [Hout | Hout]]; [lia | lia | exact Hout].
Qed.

(** One segment: both ends hold the colours of their stops and the
    entries outside the segment are untouched. *)
Lemma interpolate_segment_spec (P : platform) (lo hi : Z * rgb)
    (lut : list rgb) :
  length lut = 256%nat ->
  is_uint8 (fst lo) -> is_uint8 (fst hi) -> fst lo < fst hi ->
  byte_color (snd lo) -> byte_color (snd hi) ->
  exists lut',
    Image.interpolate_segment P lo hi lut = Ok lut'
    /\ length lut' = 256%nat
    /\ entry lut' (fst lo) = snd lo
    /\ entry lut' (fst hi) = snd hi
    /\ (forall j, 0 <= j -> j < fst lo \/ fst hi < j ->
          entry lut' j = entry lut j).
Proof.
  intros Hlut Hs He Hse Hcs Hce. unfold Image.interpolate_segment.
  destruct (interpolate_channel_spec P lo hi lut 0)
    as [l0 [E0 [L0 [A0 [B0 K0]]]]]; try assumption; [lia|].
  rewrite E0. cbn [bind].
  destruct (interpolate_channel_spec P lo hi l0 1)
    as [l1 [E1 [L1 [A1 [B1 K1]]]]]; try assumption; [lia|].
  rewrite E1. cbn [bind].
  destruct (interpolate_channel_spec P lo hi l1 2)
    as [l2 [E2 [L2 [A2 [B2 K2]]]]]; try assumption; [lia|].
  exists l2. split; [exact E2|]. split; [exact L2|].
  unfold is_uint8 in Hs, He.
  split; [|split].
  - apply rgb_ext.
    + rewrite K2, K1 by (try lia; right; right; lia). exact A0.
    + rewrite K2 by (try lia; right; right; lia). exact A1.
    + exact A2.
  - apply rgb_ext.
    + rewrite K2, K1 by (try lia; right; right; lia). exact B0.
    + rewrite K2 by (try lia; right; right; lia). exact B1.
    + exact B2.
  - intros j Hj Hout. apply rgb_ext.
    + rewrite K2, K1, K0 by (try lia; tauto). reflexivity.
    + rewrite K2, K1, K0 by (try lia; tauto). reflexivity.
    + rewrite K2, K1, K0 by (try lia; tauto). reflexivity.
Qed.

Lemma ascending_head_below (s : Z * rgb) (l : list (Z * rgb)) :
  ascending (s :: l) -> forall t, In t l -> fst s < fst t.
Proof.
  revert s. induction l as [| s1 l IH]; intros s Hasc t Hin; [contradiction|].
  cbn [ascending] in Hasc. destruct Hasc as [Hlt Hasc].
  destruct Hin as [<- | Hin]; [exact Hlt|].
  pose proof (IH s1 Hasc t Hin). lia.
Qed.

(** The loop over the stops, started on any 256-entry table. *)
Lemma interpolate_stops_spec (P : platform) (stops : list (Z * rgb)) :
  valid_stops stops ->
  forall lut,
    length lut = 256%nat ->
    exists lut',
      Image.interpolate_stops P stops lut = Ok lut'
      /\ length lut' = 256%nat
      /\ ((2 <= length stops)%nat ->
          forall s, In s stops -> entry lut' (fst s) = snd s)
      /\ (forall j, 0 <= j ->
            (forall s, In s stops -> j < fst s)
            \/ (forall s, In s stops -> fst s < j) ->
            entry lut' j = entry lut j).
Proof.
  induction stops as [| s0 stops IH]; intros [Hasc Hall] lut Hlut.
  - exists lut. split; [reflexivity|]. split; [exact Hlut|].
      split; [cbn; intros; lia | intros; reflexivity].
  - destruct stops as [| s1 rest].
    + exists lut. split; [reflexivity|]. split; [exact Hlut|].
      split; [cbn; intros; lia | intros; reflexivity].
    + cbn [Image.interpolate_stops].
      pose proof Hall as Hall'.
      apply Forall_cons_iff in Hall'. destruct Hall' as [[Hp0 Hc0] Hall1].
      pose proof Hall1 as Hall1'.
      apply Forall_cons_iff in Hall1'. destruct Hall1' as [[Hp1 Hc1] _].
      cbn [ascending] in Hasc. destruct Hasc as [Hlt Hasc1].
      destruct (interpolate_segment_spec P s0 s1 lut Hlut Hp0 Hp1 Hlt Hc0 Hc1)
        as [lutA [EA [LA [A0 [A1 KA]]]]].
      rewrite EA. cbn [bind].
      destruct (IH (conj Hasc1 Hall1) lutA LA) as [lut' [E' [L' [S' K']]]].
      exists lut'. split; [exact E'|]. split; [exact L'|].
      assert (Hbelow : forall t, In t (s1 :: rest) -> fst s0 < fst t).
      { apply ascending_head_below. cbn [ascending]. split; assumption. }
      unfold is_uint8 in Hp0, Hp1.
      split.
      * intros _ s [<- | Hin].
        -- rewrite K' by (try lia; left; exact Hbelow).
           exact A0.
        -- destruct rest as [| s2 rest].
           ++ destruct Hin as [<- | []].
              cbn in E'. injection E' as <-. exact A1.
           ++ apply S'; [cbn; lia | exact Hin].
      * intros j Hj Hout. transitivity (entry lutA j).
        -- apply K'; [exact Hj|].
           destruct Hout as [Hout | Hout].
           ++ left. intros s Hs. apply Hout. right. exact Hs.
           ++ right. intros s Hs. apply Hout. right. exact Hs.
        -- apply KA; [exact Hj|].
           destruct Hout as [Hout | Hout].
           ++ left. apply Hout. left. reflexivity.
           ++ right. apply Hout. right. left. reflexivity.
Qed.

Lemma entry_zeros (j : Z) : entry (zeros 256) j = (0, 0, 0).
Proof. unfold entry, zeros. apply nth_repeat. Qed.

(** X10: for any table of at least two colour stops with strictly
    ascending positions in 0..255 and byte colours, the loop of
    [generate_colormap_lut] succeeds, keeps the table at 256 entries,
    stores at the position of every stop exactly the colour of that stop
    (a stop shared by two segments gets the same value from both), and
    leaves at (0, 0, 0) every entry below the first or above the last
    stop. *)
Theorem lut_passes_through_stops (P : platform) (stops : list (Z * rgb)) :
  valid_stops stops ->
  (2 <= length stops)%nat ->
  exists lut,
    Image.interpolate_stops P stops (zeros 256) = Ok lut
    /\ length lut = 256%nat
    /\ (forall s, In s stops -> entry lut (fst s) = snd s)
    /\ (forall j, 0 <= j ->
          (forall s, In s stops -> j < fst s)
          \/ (forall s, In s stops -> fst s < j) ->
          entry lut j = (0, 0, 0)).
Proof.
  intros Hvalid Hlen.
  destruct (interpolate_stops_spec P stops Hvalid (zeros 256) (repeat_length _ _))
    as [lut [E [L [S K]]]].
  exists lut. split; [exact E|]. split; [exact L|]. split.
  - exact (S Hlen).
  - intros j Hj Hout. rewrite (K j Hj Hout). apply entry_zeros.
Qed.

Lemma lut_passes_through_stops_witness :
  exists lut,
    Image.interpolate_stops sample_platform Image.COLOR_STOPS (zeros 256) = Ok lut
    /\ length lut = 256%nat
    /\ (forall s, In s Image.COLOR_STOPS -> entry lut (fst s) = snd s)
    /\ (forall j, 0 <= j ->
          (forall s, In s Image.COLOR_STOPS -> j < fst s)
          \/ (forall s, In s Image.COLOR_STOPS -> fst s < j) ->
          entry lut j = (0, 0, 0)).
Proof.
  apply (lut_passes_through_stops sample_platform Image.COLOR_STOPS).
  - split.
    + cbn. lia.
    + unfold Image.COLOR_STOPS, byte_color, is_uint8.
      repeat constructor; cbn; lia.
  - cbn. lia.
Defined.

(** X11: stops out of order.  When the position of a stop lies two or
    more below the position of the stop before it, the loop raises the
    [ValueError] of [linspace] for a negative number of samples, at that
    pair; when it lies exactly one below, the pair asks for zero samples
    and is skipped without any change to the table. *)
Theorem stops_out_of_order (P : platform) (s0 s1 : Z * rgb)
    (rest : list (Z * rgb)) (lut : list rgb) :
  (fst s1 + 1 < fst s0 ->
   Image.interpolate_stops P (s0 :: s1 :: rest) lut
   = Raise (ValueError ("Number of samples, " ++ str (fst s1 - fst s0 + 1)
                          ++ ", must be non-negative.")))
  /\ (fst s1 + 1 = fst s0 ->
      Image.interpolate_stops P (s0 :: s1 :: rest) lut
      = Image.interpolate_stops P (s1 :: rest) lut).
Proof.
  destruct s0 as [p0 c0], s1 as [p1 c1]. cbn [fst snd]. split; intros Hpos.
  - cbn [Image.interpolate_stops].
    unfold Image.interpolate_segment, Image.interpolate_channel,
      linspace_uint8, linspace.
    destruct (Z.ltb_spec (p1 - p0 + 1) 0); [reflexivity | lia].
  - assert (Hseg : forall c l, Image.interpolate_channel P (p0, c0) (p1, c1) l c
                               = Ok l).
    { intros c l. unfold Image.interpolate_channel, linspace_uint8, linspace.
      replace (p1 - p0 + 1) with 0 by lia. cbn [bind].
      unfold assign_column, slice_indices.
      replace (Z.max 0 (slice_bound (len l) (p1 + 1) - slice_bound (len l) p0))
        with 0 by (replace (p1 + 1) with p0 by lia; lia).
      reflexivity. }
    change (Image.interpolate_stops P ((p0, c0) :: (p1, c1) :: rest) lut)
      with (lut' <- Image.interpolate_segment P (p0, c0) (p1, c1) lut ;;
            Image.interpolate_stops P ((p1, c1) :: rest) lut').
    unfold Image.interpolate_segment.
    rewrite Hseg. cbn [bind]. rewrite Hseg. cbn [bind]. rewrite Hseg. reflexivity.
Qed.

Lemma stops_out_of_order_witness :
  Image.interpolate_stops sample_platform
    [(64, (0, 128, 255)); (0, (0, 0, 128)); (255, (255, 0, 0))] (zeros 256)
  = Raise (ValueError ("Number of samples, " ++ str (0 - 64 + 1)
                         ++ ", must be non-negative.")).
Proof.
  apply (proj1 (stops_out_of_order sample_platform
                  (64, (0, 128, 255)) (0, (0, 0, 128))
                  [(255, (255, 0, 0))] (zeros 256))).
  cbn. lia.
Defined.
